(** * Comp-Check Bot front-end: query lifecycle, score bands, audit status

    A shallow embedding of the React front-end of the repository:
    - [ChunksSection.jsx]  : [scoreLevel]
    - [RecordsTable.jsx]   : [scoreColor], [statusClass]
    - [LoadingCard.jsx]    : [STEPS], [useProgressiveSteps]
    - [api.js]             : [postQuery] (the version with the non-JSON and
                             empty-body checks)
    - [App.jsx]            : [handleSubmit], [handleClear], [fillExample],
                             the timeout guard and the conditional rendering.

    JavaScript strings are sequences of UTF-16 code units and numbers are
    IEEE-754 binary64 values (Rocq's primitive floats).

    The component runs on the event loop of the browser. A turn of the loop
    is modelled as one function: the handler of the event, then the
    continuations the handler has released, then the render. An
    [async] function is split at its [await]: [handleSubmit] is the part
    before [await postQuery(...)], [resume] the part after it. Aborting an
    [AbortController] rejects the [fetch] (or the body read) that listens to
    its signal at once, so the continuation of the aborted submission runs
    in the turn of the abort, after the code that called [abort()]. *)

From Stdlib Require Import ZArith NArith Floats Strings.String Strings.Ascii.
From stdpp Require Import base option list gmap.

Set Warnings "-inexact-float,-register-all".
Local Open Scope N_scope.

(* ===================================================================== *)
(** ** JavaScript strings *)
(* ===================================================================== *)

(** A string is its list of UTF-16 code units. *)
Definition jsstring := list N.

(** An ASCII literal of the source as a [jsstring]. *)
Definition js (s : string) : jsstring :=
  map N_of_ascii (list_ascii_of_string s).

(** U+2013 EN DASH, used in the error messages of [api.js]. *)
Definition en_dash : N := 8211.

Definition jsstring_eqb (a b : jsstring) : bool := bool_decide (a = b).

(** [WhiteSpace] and [LineTerminator] code points of ECMAScript, the ones
    [String.prototype.trim] strips. *)
Definition is_whitespace (c : N) : bool :=
  (9 <=? c) && (c <=? 13) || (c =? 32) || (c =? 160) || (c =? 5760)
  || (8192 <=? c) && (c <=? 8202) || (c =? 8232) || (c =? 8233)
  || (c =? 8239) || (c =? 8287) || (c =? 12288) || (c =? 65279).

Fixpoint trimStart (s : jsstring) : jsstring :=
  match s with
  | c :: s' => if is_whitespace c then trimStart s' else s
  | [] => []
  end.

Definition trimEnd (s : jsstring) : jsstring := rev (trimStart (rev s)).

(** [s.trim()] *)
Definition trim (s : jsstring) : jsstring := trimEnd (trimStart s).

Fixpoint startsWith (s p : jsstring) : bool :=
  match p, s with
  | [], _ => true
  | a :: p', b :: s' => (a =? b) && startsWith s' p'
  | _ :: _, [] => false
  end.

(** [s.includes(needle)] *)
Fixpoint includes (s needle : jsstring) : bool :=
  startsWith s needle ||
  match s with
  | [] => false
  | _ :: s' => includes s' needle
  end.

(** [s.slice(0, n)] *)
Definition slice0 (n : nat) (s : jsstring) : jsstring := take n s.

(** [s.toLowerCase()] on the Basic Latin letters; code units outside A-Z are
    left as they are. Of the Unicode mappings JavaScript applies to those,
    only U+212A (to [k]) and U+0130 (to [i] followed by U+0307) yield a
    Basic Latin letter, and neither can complete the two words [statusClass]
    compares with, so its result is the same under this definition. *)
Definition lower_unit (c : N) : N :=
  if (65 <=? c) && (c <=? 90) then c + 32 else c.

Definition toLowerCase (s : jsstring) : jsstring := map lower_unit s.

(** Decimal digits of a non-negative integer, as in a template literal. *)
Fixpoint uint_digits (d : Decimal.uint) : jsstring :=
  match d with
  | Decimal.Nil => []
  | Decimal.D0 d' => 48 :: uint_digits d'
  | Decimal.D1 d' => 49 :: uint_digits d'
  | Decimal.D2 d' => 50 :: uint_digits d'
  | Decimal.D3 d' => 51 :: uint_digits d'
  | Decimal.D4 d' => 52 :: uint_digits d'
  | Decimal.D5 d' => 53 :: uint_digits d'
  | Decimal.D6 d' => 54 :: uint_digits d'
  | Decimal.D7 d' => 55 :: uint_digits d'
  | Decimal.D8 d' => 56 :: uint_digits d'
  | Decimal.D9 d' => 57 :: uint_digits d'
  end.

Definition decimal (n : N) : jsstring := uint_digits (N.to_uint n).

(* ===================================================================== *)
(** ** JavaScript values *)
(* ===================================================================== *)

(** The values a parsed JSON body, a piece of React state or a property
    read can hold. An object is its list of own properties. *)
Inductive JsValue : Type :=
  | JUndefined
  | JNull
  | JBool (b : bool)
  | JNum (x : float)
  | JStr (s : jsstring)
  | JArr (items : list JsValue)
  | JObj (props : list (jsstring * JsValue)).

(** ToBoolean *)
Definition truthy (v : JsValue) : bool :=
  match v with
  | JUndefined | JNull => false
  | JBool b => b
  | JNum x => negb (x =? 0)%float && negb (is_nan x)
  | JStr s => negb (jsstring_eqb s [])
  | JArr _ | JObj _ => true
  end.

(** [a || b] *)
Definition js_or (a b : JsValue) : JsValue := if truthy a then a else b.

(** [a && b] *)
Definition js_and (a b : JsValue) : JsValue := if truthy a then b else a.

Fixpoint lookup_prop (k : jsstring) (props : list (jsstring * JsValue)) : JsValue :=
  match props with
  | [] => JUndefined
  | (k', v) :: rest => if jsstring_eqb k k' then v else lookup_prop k rest
  end.

(** [v.k] for the property names [detail] and [message], which no primitive
    wrapper and no array defines. Reading a property of [null] or
    [undefined] throws; the callers below guard against it. *)
Definition get_prop (v : JsValue) (k : jsstring) : JsValue :=
  match v with
  | JObj props => lookup_prop k props
  | _ => JUndefined
  end.

(** A rendering of numbers for the worked examples at the end, none of which
    converts a number to a string. *)
Definition example_numbers (x : float) : jsstring := js "NaN".

(* ===================================================================== *)
(** ** ChunksSection.jsx and RecordsTable.jsx: score bands *)
(* ===================================================================== *)

(** [a >= b] on numbers. *)
Definition geb (a b : float) : bool := (b <=? a)%float.

Definition scoreLevel (score : float) : jsstring :=
  if geb score 0.85 then js "high"
  else if geb score 0.70 then js "medium"
  else js "low".

Definition scoreColor (score : float) : jsstring :=
  if geb score 85 then js "#22C55E"
  else if geb score 70 then js "#F59E0B"
  else js "#EF4444".

Inductive Band := Low | Medium | High.

Definition band_rank (b : Band) : nat :=
  match b with Low => 0 | Medium => 1 | High => 2 end.

Inductive Scale := Similarity | Compliance.

(** The class name [scoreLevel] returns, read as a band. *)
Definition level_band (l : jsstring) : option Band :=
  if jsstring_eqb l (js "high") then Some High
  else if jsstring_eqb l (js "medium") then Some Medium
  else if jsstring_eqb l (js "low") then Some Low
  else None.

(** The fill colour [scoreColor] returns, read as a band: green is High,
    amber is Medium, red is Low. *)
Definition color_band (c : jsstring) : option Band :=
  if jsstring_eqb c (js "#22C55E") then Some High
  else if jsstring_eqb c (js "#F59E0B") then Some Medium
  else if jsstring_eqb c (js "#EF4444") then Some Low
  else None.

(** The band of a score on either scale, as the two components compute it. *)
Definition band (scale : Scale) (s : float) : option Band :=
  match scale with
  | Similarity => level_band (scoreLevel s)
  | Compliance => color_band (scoreColor s)
  end.

(** The nominal range of each scale. *)
Definition scale_min (scale : Scale) : float := 0%float.
Definition scale_max (scale : Scale) : float :=
  match scale with Similarity => 1%float | Compliance => 100%float end.

(* ===================================================================== *)
(** ** RecordsTable.jsx: audit status *)
(* ===================================================================== *)

(** The result of a call that may throw. *)
Inductive Completion (A : Type) : Type :=
  | Normal (a : A)
  | TypeError.
Arguments Normal {A} a.
Arguments TypeError {A}.

(** [x.toLowerCase()]: defined on strings; any other value that reaches the
    call has no such method. *)
Definition call_toLowerCase (v : JsValue) : Completion jsstring :=
  match v with
  | JStr s => Normal (toLowerCase s)
  | _ => TypeError
  end.

Definition statusClass (status : JsValue) : Completion jsstring :=
  match call_toLowerCase (js_or status (JStr [])) with
  | Normal s =>
      if jsstring_eqb s (js "passed") then Normal (js "passed")
      else if jsstring_eqb s (js "failed") then Normal (js "failed")
      else Normal (js "pending")
  | TypeError => TypeError
  end.

(** An audit-status input: a string, [null] or [undefined]. *)
Definition is_status_input (v : JsValue) : Prop :=
  match v with
  | JStr _ | JNull | JUndefined => True
  | _ => False
  end.

(** The string whose lower-casing [statusClass] inspects. *)
Definition status_text (v : JsValue) : jsstring :=
  match v with
  | JStr s => s
  | _ => []
  end.

(* ===================================================================== *)
(** ** LoadingCard.jsx: the progressive pipeline steps *)
(* ===================================================================== *)

Record Step := { step_id : jsstring; step_label : jsstring }.

(** The labels start with an emoji, written here as its surrogate pair. *)
Definition STEPS : list Step :=
  [ {| step_id := js "filter";
       step_label := [55358; 56800] ++ js " Extracting filters" |};
    {| step_id := js "postgres";
       step_label := [55357; 56344] ++ js " Querying Postgres" |};
    {| step_id := js "embed";
       step_label := [55357; 56610] ++ js " Creating embedding" |};
    {| step_id := js "milvus";
       step_label := [55357; 56589] ++ js " Vector search" |};
    {| step_id := js "llm";
       step_label := [55357; 56481] ++ js " Generating answer" |} ].

(** The period of [setInterval] in [useProgressiveSteps], in milliseconds. *)
Definition STEP_INTERVAL_MS : Z := 2200.

(** The updater passed to [setActive]. *)
Definition advance (prev : nat) : nat :=
  if (prev <? length STEPS - 1)%nat then (prev + 1)%nat else prev.

(** A mounted [LoadingCard]: the [active] state of [useProgressiveSteps] and
    the time at which its interval fires next. Unmounting runs the effect's
    clean-up ([clearInterval]) and drops the instance. *)
Record LoadingCard := { active : nat; next_tick : Z }.

(** Mounting at time [t]: [useState(0)], then the effect starts the interval. *)
Definition mount (t : Z) : LoadingCard :=
  {| active := 0; next_tick := t + STEP_INTERVAL_MS |}.

(** One run of the interval callback. *)
Definition tick (lc : LoadingCard) : LoadingCard :=
  {| active := advance (active lc);
     next_tick := next_tick lc + STEP_INTERVAL_MS |}.

(** The interval callbacks that are due up to time [t], in order. *)
Definition card_elapse (t : Z) (lc : LoadingCard) : LoadingCard :=
  if (t <? next_tick lc)%Z then lc
  else Nat.iter (Z.to_nat ((t - next_tick lc) / STEP_INTERVAL_MS + 1)) tick lc.

(* ===================================================================== *)
(** ** api.js: postQuery *)
(* ===================================================================== *)

Section Frontend.

(** [Number::toString], the one primitive conversion that is not spelt out
    here; it is reached only when a backend sends a number as error detail. *)
Variable Number_toString : float -> jsstring.

(** ToString, with [Array.prototype.join] for arrays. *)
Fixpoint ToString (v : JsValue) : jsstring :=
  match v with
  | JUndefined => js "undefined"
  | JNull => js "null"
  | JBool true => js "true"
  | JBool false => js "false"
  | JNum x => Number_toString x
  | JStr s => s
  | JArr items =>
      let element (x : JsValue) : jsstring :=
        match x with
        | JUndefined | JNull => []
        | _ => ToString x
        end in
      (fix join (l : list JsValue) : jsstring :=
         match l with
         | [] => []
         | [x] => element x
         | x :: rest => element x ++ js "," ++ join rest
         end) items
  | JObj _ => js "[object Object]"
  end.

(** What [postQuery] reads of a [Response] once [fetch] has resolved. *)
Record Response := {
  status : N;
  statusText : jsstring;
  content_type : option jsstring   (* headers.get('content-type'), or null *)
}.

(** [response.ok]: the status is in the range 200 to 299. *)
Definition ok (r : Response) : bool := (200 <=? status r) && (status r <=? 299).

(** How reading the body ends: the value [response.json()] resolves to and
    the string [response.text()] resolves to, [None] where the promise
    rejects (malformed JSON, a broken or aborted stream). *)
Record Body := { json : option JsValue; text : option jsstring }.

(** How the network call of one [postQuery] goes. *)
Inductive FetchResult :=
  | FetchAbort                            (* fetch rejects with AbortError *)
  | FetchFail (message : jsstring)        (* fetch rejects with another error *)
  | FetchOk (r : Response) (b : Body).    (* fetch resolves *)

Inductive Exception :=
  | AbortError
  | Error (message : jsstring).

Inductive Outcome :=
  | Return (body : JsValue)
  | Throw (e : Exception).

Definition EMPTY_BODY : jsstring := js "Backend returned an empty response body.".

(** The part of [postQuery] after the body has been read into [body]. *)
Definition check_response (r : Response) (body : JsValue) : Outcome :=
  if negb (ok r) then
    let detail :=
      js_or (js_and body (js_or (get_prop body (js "detail"))
                                (get_prop body (js "message"))))
            (JStr (js "HTTP " ++ decimal (status r) ++ js " " ++ [en_dash]
                     ++ js " " ++ statusText r)) in
    Throw (Error (ToString detail))
  else if negb (truthy body) then Throw (Error EMPTY_BODY)
  else Return body.

Definition postQuery (f : FetchResult) : Outcome :=
  match f with
  | FetchAbort => Throw AbortError
  | FetchFail message =>
      Throw (Error (js "Network error " ++ [en_dash]
                      ++ js " could not reach the backend. "
                      ++ js "Is it deployed and running? ("
                      ++ message ++ js ")"))
  | FetchOk r b =>
      let contentType := default [] (content_type r) in
      if includes contentType (js "application/json") then
        check_response r (default JNull (json b))
      else
        let text := default [] (text b) in
        if negb (ok r) then
          Throw (Error (js "HTTP " ++ decimal (status r) ++ js " " ++ [en_dash]
                          ++ js " Backend returned a non-JSON response. "
                          ++ (if negb (jsstring_eqb text []) then slice0 200 text
                              else statusText r)))
        else check_response r JNull
  end.

(* ===================================================================== *)
(** ** App.jsx: state *)
(* ===================================================================== *)

Definition QUERY_TIMEOUT_MS : Z := 90000.

Definition ABORT_MESSAGE : jsstring :=
  js "Request timed out or was cancelled. Please try again.".

(** A pending [setTimeout(() => controller.abort(), QUERY_TIMEOUT_MS)]. *)
Record Timer := { deadline : Z; target : nat }.

(** A call of [handleSubmit] suspended at [await postQuery(...)]: the query
    it sent, its [controller], its [timeoutId], and the response once
    [fetch] has resolved and the body is being read. *)
Record Request := {
  req_query : jsstring;
  req_ctrl : nat;
  req_timer : nat;
  req_response : option Response
}.

(** The component state ([useState], [useRef]) together with what the
    platform holds for it: the [AbortController] objects created so far
    (by index, [true] once aborted), the armed timeouts, the suspended
    submissions, the mounted [LoadingCard] and the clock. *)
Record App := {
  query : jsstring;
  loading : bool;
  result : JsValue;
  error : option jsstring;
  abortRef : option nat;
  controllers : list bool;
  timers : gmap nat Timer;
  next_timer : nat;
  pending : list Request;
  card : option LoadingCard;
  now : Z
}.

Definition setQuery (v : jsstring) (st : App) : App :=
  {| query := v; loading := loading st; result := result st;
     error := error st; abortRef := abortRef st;
     controllers := controllers st; timers := timers st;
     next_timer := next_timer st; pending := pending st; card := card st;
     now := now st |}.

Definition setLoading (v : bool) (st : App) : App :=
  {| query := query st; loading := v; result := result st;
     error := error st; abortRef := abortRef st;
     controllers := controllers st; timers := timers st;
     next_timer := next_timer st; pending := pending st; card := card st;
     now := now st |}.

Definition setResult (v : JsValue) (st : App) : App :=
  {| query := query st; loading := loading st; result := v;
     error := error st; abortRef := abortRef st;
     controllers := controllers st; timers := timers st;
     next_timer := next_timer st; pending := pending st; card := card st;
     now := now st |}.

Definition setError (v : option jsstring) (st : App) : App :=
  {| query := query st; loading := loading st; result := result st;
     error := v; abortRef := abortRef st;
     controllers := controllers st; timers := timers st;
     next_timer := next_timer st; pending := pending st; card := card st;
     now := now st |}.

Definition set_abortRef (v : option nat) (st : App) : App :=
  {| query := query st; loading := loading st; result := result st;
     error := error st; abortRef := v;
     controllers := controllers st; timers := timers st;
     next_timer := next_timer st; pending := pending st; card := card st;
     now := now st |}.

Definition set_controllers (v : list bool) (st : App) : App :=
  {| query := query st; loading := loading st; result := result st;
     error := error st; abortRef := abortRef st;
     controllers := v; timers := timers st;
     next_timer := next_timer st; pending := pending st; card := card st;
     now := now st |}.

Definition set_timers (v : gmap nat Timer) (n : nat) (st : App) : App :=
  {| query := query st; loading := loading st; result := result st;
     error := error st; abortRef := abortRef st;
     controllers := controllers st; timers := v;
     next_timer := n; pending := pending st; card := card st;
     now := now st |}.

Definition set_pending (v : list Request) (st : App) : App :=
  {| query := query st; loading := loading st; result := result st;
     error := error st; abortRef := abortRef st;
     controllers := controllers st; timers := timers st;
     next_timer := next_timer st; pending := v; card := card st;
     now := now st |}.

Definition set_card (v : option LoadingCard) (st : App) : App :=
  {| query := query st; loading := loading st; result := result st;
     error := error st; abortRef := abortRef st;
     controllers := controllers st; timers := timers st;
     next_timer := next_timer st; pending := pending st; card := v;
     now := now st |}.

Definition set_now (v : Z) (st : App) : App :=
  {| query := query st; loading := loading st; result := result st;
     error := error st; abortRef := abortRef st;
     controllers := controllers st; timers := timers st;
     next_timer := next_timer st; pending := pending st; card := card st;
     now := v |}.

(** The state of a freshly mounted [App] at time 0. *)
Definition init : App :=
  {| query := []; loading := false; result := JNull; error := None;
     abortRef := None; controllers := []; timers := ∅; next_timer := 1;
     pending := []; card := None; now := 0 |}.

(* ===================================================================== *)
(** ** App.jsx: platform operations *)
(* ===================================================================== *)

(** [new AbortController()]: the new object's index. *)
Definition new_controller (st : App) : nat * App :=
  (length (controllers st), set_controllers (controllers st ++ [false]) st).

(** [controller.abort()] *)
Definition abort (c : nat) (st : App) : App :=
  set_controllers (<[c := true]> (controllers st)) st.

(** [abortRef.current?.abort()] *)
Definition abort_current (st : App) : App :=
  match abortRef st with
  | Some c => abort c st
  | None => st
  end.

Definition is_aborted (st : App) (c : nat) : bool :=
  default false (controllers st !! c).

(** [setTimeout(() => controller.abort(), ms)]: the new timer's id. *)
Definition setTimeout (c : nat) (ms : Z) (st : App) : nat * App :=
  (next_timer st,
   set_timers (<[next_timer st := {| deadline := now st + ms; target := c |}]>
                 (timers st))
              (S (next_timer st)) st).

(** [clearTimeout(id)] *)
Definition clearTimeout (id : nat) (st : App) : App :=
  set_timers (delete id (timers st)) (next_timer st) st.

(** A suspended submission once [fetch] has resolved with [resp]. *)
Definition with_response (resp : Response) (r : Request) : Request :=
  {| req_query := req_query r; req_ctrl := req_ctrl r;
     req_timer := req_timer r; req_response := Some resp |}.

Definition remove_request (c : nat) (l : list Request) : list Request :=
  filter (fun r => req_ctrl r <> c) l.

Definition find_request (c : nat) (l : list Request) : option Request :=
  list_find (fun r => req_ctrl r = c) l ≫= (fun p => Some (snd p)).

(* ===================================================================== *)
(** ** App.jsx: handlers *)
(* ===================================================================== *)

(** [handleSubmit] up to its [await]: the guard, the superseding abort, the
    new controller, the three state writes, the timeout guard and the call
    of [postQuery], which leaves the submission suspended. *)
Definition handleSubmit (st : App) : App :=
  if jsstring_eqb (trim (query st)) [] || loading st then st
  else
    let st := abort_current st in
    let '(controller, st) := new_controller st in
    let st := set_abortRef (Some controller) st in
    let st := setLoading true st in
    let st := setError None st in
    let st := setResult JNull st in
    let '(timeoutId, st) := setTimeout controller QUERY_TIMEOUT_MS st in
    set_pending (pending st ++
                   [{| req_query := trim (query st); req_ctrl := controller;
                       req_timer := timeoutId; req_response := None |}]) st.

(** The message the [catch] clause of [handleSubmit] stores:
    [err.message || 'An unexpected error occurred.'] unless the error is an
    AbortError. *)
Definition catch_message (err : Exception) : jsstring :=
  match err with
  | AbortError => ABORT_MESSAGE
  | Error message =>
      if jsstring_eqb message [] then js "An unexpected error occurred."
      else message
  end.

(** [handleSubmit] from the point where [postQuery] settles: the [try]
    body or the [catch] clause, then the [finally] clause. *)
Definition resume (r : Request) (o : Outcome) (st : App) : App :=
  let st := set_pending (remove_request (req_ctrl r) (pending st)) st in
  let st :=
    match o with
    | Return data => setResult data st
    | Throw err => setError (Some (catch_message err)) st
    end in
  let st := clearTimeout (req_timer r) st in
  setLoading false st.

Definition handleClear (st : App) : App :=
  let st := abort_current st in
  let st := setQuery [] st in
  let st := setResult JNull st in
  let st := setError None st in
  setLoading false st.

Definition fillExample (text : jsstring) (st : App) : App :=
  let st := setQuery text st in
  let st := setResult JNull st in
  setError None st.

(* ===================================================================== *)
(** ** App.jsx: the event loop *)
(* ===================================================================== *)

(** How the network call of a suspended submission ends once its signal is
    aborted: [fetch] rejects with an AbortError, or, when the response has
    arrived already, reading its body rejects. *)
Definition aborted_result (r : Request) : FetchResult :=
  match req_response r with
  | None => FetchAbort
  | Some resp => FetchOk resp {| json := None; text := None |}
  end.

(** The continuations released by the aborts of the current task: every
    suspended submission whose signal is aborted resumes, oldest first. *)
Definition microtasks (st : App) : App :=
  foldl (fun s r =>
           if is_aborted s (req_ctrl r)
           then resume r (postQuery (aborted_result r)) s
           else s)
        st (pending st).

(** The render that follows a task: [{loading && <LoadingCard />}] keeps a
    mounted card, mounts a new one, or unmounts it. *)
Definition commit (st : App) : App :=
  set_card (if loading st
            then Some (default (mount (now st)) (card st))
            else None) st.

Inductive Event :=
  | Input (text : jsstring)                   (* onChange of the textarea *)
  | Example (text : jsstring)                 (* an example pill or card *)
  | Ask                                       (* Ask button, Ctrl+Enter *)
  | Clear                                     (* Clear button *)
  | FetchResolves (c : nat) (r : Response)    (* the response arrives *)
  | FetchRejects (c : nat) (message : jsstring)  (* the network fails *)
  | BodyArrives (c : nat) (b : Body)          (* the body has been read *)
  | Elapse (dt : Z)                           (* time passes *)
  | TimeoutFires (id : nat).                  (* a timeout is due *)

(** The handler of an event, [None] when the event cannot occur: a network
    event needs a submission suspended at that point, time cannot pass an
    armed timeout without firing it, and a timeout fires when it is due. *)
Definition handle (e : Event) (st : App) : option App :=
  match e with
  | Input text => Some (setQuery text st)
  | Example text => Some (fillExample text st)
  | Ask => Some (handleSubmit st)
  | Clear => Some (handleClear st)
  | FetchResolves c resp =>
      match find_request c (pending st) with
      | Some r =>
          match req_response r with
          | None =>
              Some (set_pending
                      (map (fun r' => if bool_decide (req_ctrl r' = c)
                                      then with_response resp r' else r')
                           (pending st)) st)
          | Some _ => None
          end
      | None => None
      end
  | FetchRejects c message =>
      match find_request c (pending st) with
      | Some r =>
          match req_response r with
          | None => Some (resume r (postQuery (FetchFail message)) st)
          | Some _ => None
          end
      | None => None
      end
  | BodyArrives c b =>
      match find_request c (pending st) with
      | Some r =>
          match req_response r with
          | Some resp => Some (resume r (postQuery (FetchOk resp b)) st)
          | None => None
          end
      | None => None
      end
  | Elapse dt =>
      if bool_decide (0 <= dt)%Z
         && bool_decide (map_Forall (fun _ t => (now st + dt <= deadline t)%Z)
                                    (timers st))
      then Some (set_card (card_elapse (now st + dt) <$> card st)
                          (set_now (now st + dt) st))
      else None
  | TimeoutFires id =>
      match timers st !! id with
      | Some t =>
          if bool_decide (deadline t <= now st)%Z
          then Some (abort (target t) (clearTimeout id st))
          else None
      | None => None
      end
  end.

(** One turn of the event loop: the handler, the continuations it released,
    the render. *)
Definition step (e : Event) (st : App) : option App :=
  (fun st' => commit (microtasks st')) <$> handle e st.

Fixpoint run (es : list Event) (st : App) : option App :=
  match es with
  | [] => Some st
  | e :: es' => step e st ≫= run es'
  end.

(** The states the component can be in. *)
Inductive reachable : App -> Prop :=
  | reachable_init : reachable init
  | reachable_step e st st' :
      reachable st -> step e st = Some st' -> reachable st'.

(* ===================================================================== *)
(** ** App.jsx: what is rendered *)
(* ===================================================================== *)

Inductive View :=
  | LoadingView                       (* <LoadingCard /> *)
  | ErrorView (message : jsstring)    (* <ErrorCard message={error} /> *)
  | ResultsView (data : JsValue)      (* AnswerCard, ChunksSection, RecordsTable *)
  | WelcomeView.                      (* the welcome card *)

Definition error_truthy (e : option jsstring) : bool :=
  match e with
  | Some m => negb (jsstring_eqb m [])
  | None => false
  end.

(** The four conditional blocks of the JSX, in source order. *)
Definition render (st : App) : list View :=
  (if loading st then [LoadingView] else [])
  ++ (if error_truthy (error st) && negb (loading st)
      then [ErrorView (default [] (error st))] else [])
  ++ (if truthy (result st) && negb (loading st)
      then [ResultsView (result st)] else [])
  ++ (if negb (loading st) && negb (error_truthy (error st))
         && negb (truthy (result st))
      then [WelcomeView] else []).

Inductive LifecycleState :=
  | Idle
  | Pending
  | Succeeded (data : JsValue)
  | Failed (message : jsstring).

(** The lifecycle variant the three state variables stand for. *)
Definition lifecycle (st : App) : LifecycleState :=
  if loading st then Pending
  else match error st with
       | Some m => if jsstring_eqb m [] then
                     (if truthy (result st) then Succeeded (result st) else Idle)
                   else Failed m
       | None => if truthy (result st) then Succeeded (result st) else Idle
       end.

(** The view each variant is presented with. *)
Definition dispatch (l : LifecycleState) : View :=
  match l with
  | Idle => WelcomeView
  | Pending => LoadingView
  | Succeeded data => ResultsView data
  | Failed m => ErrorView m
  end.

(* ===================================================================== *)
(** ** App.jsx: the invariant of the reachable states *)
(* ===================================================================== *)

(** While [loading] is set: one submission [r] is suspended, made at time
    [t0]; its controller is the current one and is not aborted; its timeout
    is the only one armed; nothing is shown but the card [lc], whose index
    is the number of whole intervals since [t0], capped at the last step. *)
Record pending_inv (st : App) (r : Request) (t0 : Z) (lc : LoadingCard) : Prop := {
  pi_pending : pending st = [r];
  pi_ref : abortRef st = Some (req_ctrl r);
  pi_live : controllers st !! req_ctrl r = Some false;
  pi_timers : timers st =
              {[ req_timer r := {| deadline := t0 + QUERY_TIMEOUT_MS;
                                   target := req_ctrl r |} ]};
  pi_result : result st = JNull;
  pi_error : error st = None;
  pi_since : (t0 <= now st <= t0 + QUERY_TIMEOUT_MS)%Z;
  pi_card : card st = Some lc;
  pi_active : active lc =
              Nat.min (Z.to_nat ((now st - t0) / STEP_INTERVAL_MS))
                      (length STEPS - 1);
  pi_tick : next_tick lc =
            (t0 + STEP_INTERVAL_MS * ((now st - t0) / STEP_INTERVAL_MS + 1))%Z
}.

(** While [loading] is clear: nothing is suspended, no timeout is armed, no
    card is mounted, and an error and a result are never held together. *)
Record settled_inv (st : App) : Prop := {
  si_pending : pending st = [];
  si_timers : timers st = ∅;
  si_card : card st = None;
  si_one : error_truthy (error st) && truthy (result st) = false
}.

Definition Inv (st : App) : Prop :=
  (forall c, abortRef st = Some c -> (c < length (controllers st))%nat) /\
  (forall m, error st = Some m -> m <> []) /\
  if loading st then exists r t0 lc, pending_inv st r t0 lc
  else settled_inv st.

(** The state an accepted submission leaves, rendered. *)
Definition accepted (st : App) : App :=
  {| query := query st; loading := true; result := JNull; error := None;
     abortRef := Some (length (controllers st));
     controllers := controllers (abort_current st) ++ [false];
     timers := {[ next_timer st :=
                    {| deadline := now st + QUERY_TIMEOUT_MS;
                       target := length (controllers st) |} ]};
     next_timer := S (next_timer st);
     pending := [ {| req_query := trim (query st);
                     req_ctrl := length (controllers st);
                     req_timer := next_timer st;
                     req_response := None |} ];
     card := Some (mount (now st));
     now := now st |}.


(** The state a suspended submission leaves when it resumes with [o] in a
    state where it is the only one suspended, rendered. *)
Definition settled (o : Outcome) (st : App) : App :=
  {| query := query st; loading := false;
     result := match o with Return data => data | Throw _ => result st end;
     error := match o with
              | Return _ => error st
              | Throw err => Some (catch_message err)
              end;
     abortRef := abortRef st; controllers := controllers st;
     timers := ∅; next_timer := next_timer st; pending := [];
     card := None; now := now st |}.


(* ===================================================================== *)
(** ** LoadingCard.jsx: the badges *)
(* ===================================================================== *)

Inductive BadgeClass := BadgeDone | BadgeActive.

(** A rendered [<span className="step-badge ...">]: its key, its class and
    its text (the mark followed by the label). *)
Record Badge := {
  badge_key : jsstring;
  badge_class : BadgeClass;
  badge_text : jsstring
}.

(** The callback of [STEPS.map] in [LoadingCard]: [None] is the [null] it
    returns for a step that is neither done nor active. The marks are
    U+2713 and U+25CF. *)
Definition step_badge (activeIdx idx : nat) (step : Step) : option Badge :=
  let isDone := (idx <? activeIdx)%nat in
  let isActive := (idx =? activeIdx)%nat in
  if negb isDone && negb isActive then None
  else Some {| badge_key := step_id step;
               badge_class := if isDone then BadgeDone else BadgeActive;
               badge_text := (if isDone then [10003] else [9679])
                             ++ step_label step |}.

(** The badges React renders for a list of steps: the non-null results. *)
Definition badges_of (steps : list Step) (activeIdx : nat) : list Badge :=
  omap id (imap (step_badge activeIdx) steps).

(** The children of [<div className="loading-steps">]. *)
Definition loading_steps (activeIdx : nat) : list Badge :=
  badges_of STEPS activeIdx.

(* ===================================================================== *)
(** ** RecordsTable.jsx: the status pill of a row *)
(* ===================================================================== *)

(** [cond && mark] as a child: the mark, or nothing. *)
Definition mark_if (cond : bool) (mark : jsstring) : list jsstring :=
  if cond then [mark] else [].

(** The [<span className={`status-pill ${statusClass(...)}`}>] of
    [RecordRow]: its class name and the marks in front of the status text
    (U+2713, U+2715 and U+23F3, each followed by a space). Each of the four
    calls of [statusClass] may throw. *)
Definition status_pill (audit_status : JsValue)
  : Completion (jsstring * list jsstring) :=
  match statusClass audit_status with
  | Normal c =>
      Normal (js "status-pill " ++ c,
              mark_if (jsstring_eqb c (js "passed")) [10003; 32]
              ++ mark_if (jsstring_eqb c (js "failed")) [10005; 32]
              ++ mark_if (jsstring_eqb c (js "pending")) [9203; 32])
  | TypeError => TypeError
  end.

(* ===================================================================== *)
(** ** ErrorCard.jsx *)
(* ===================================================================== *)

(** The text of the paragraph: [message || '...']. *)
Definition ErrorCard (message : option jsstring) : jsstring :=
  if error_truthy message then default [] message
  else js "An unexpected error occurred. Please try again.".

(* ===================================================================== *)
(** ** AnswerCard.jsx: the copy button *)
(* ===================================================================== *)

Definition COPIED_MS : Z := 2000.

(** A mounted [AnswerCard]: the [copied] state, the deadlines of the armed
    [setTimeout(() => setCopied(false), 2000)] calls, and the clock. *)
Record AnswerCard := {
  copied : bool;
  copy_timers : list Z;
  copy_now : Z
}.

Definition AnswerCard_init (t : Z) : AnswerCard :=
  {| copied := false; copy_timers := []; copy_now := t |}.

(** The label of the button. *)
Definition copy_label (c : AnswerCard) : jsstring :=
  if copied c then [10003] ++ js " Copied" else [10697] ++ js " Copy".

Inductive CopyEvent :=
  | CopyWritten                 (* clipboard.writeText resolved *)
  | CopyRejected                (* clipboard.writeText rejected *)
  | CopyElapse (dt : Z)         (* time passes *)
  | CopyTimerFires (i : nat).   (* the i-th armed timeout is due *)

(** [handleCopy] from its [await] on, and the timeout callback. A rejected
    write ends [handleCopy] before any state is written. *)
Definition copy_step (e : CopyEvent) (c : AnswerCard) : option AnswerCard :=
  match e with
  | CopyWritten =>
      Some {| copied := true;
              copy_timers := copy_timers c ++ [(copy_now c + COPIED_MS)%Z];
              copy_now := copy_now c |}
  | CopyRejected => Some c
  | CopyElapse dt =>
      if bool_decide (0 <= dt)%Z
         && forallb (fun d => bool_decide (copy_now c + dt <= d)%Z)
                    (copy_timers c)
      then Some {| copied := copied c; copy_timers := copy_timers c;
                   copy_now := (copy_now c + dt)%Z |}
      else None
  | CopyTimerFires i =>
      match copy_timers c !! i with
      | Some d =>
          if bool_decide (d <= copy_now c)%Z
          then Some {| copied := false;
                       copy_timers := delete i (copy_timers c);
                       copy_now := copy_now c |}
          else None
      | None => None
      end
  end.

Inductive copy_reachable (t : Z) : AnswerCard -> Prop :=
  | copy_reachable_init : copy_reachable t (AnswerCard_init t)
  | copy_reachable_step e c c' :
      copy_reachable t c -> copy_step e c = Some c' -> copy_reachable t c'.

Fixpoint copy_run (es : list CopyEvent) (c : AnswerCard) : option AnswerCard :=
  match es with
  | [] => Some c
  | e :: es' => copy_step e c ≫= copy_run es'
  end.

(** While the label says Copied a timeout is armed, and every armed timeout
    is due within [COPIED_MS]. *)
Definition copy_inv (c : AnswerCard) : Prop :=
  (copied c = true -> copy_timers c <> []) /\
  Forall (fun d => (copy_now c <= d <= copy_now c + COPIED_MS)%Z)
         (copy_timers c).

(* ===================================================================== *)
(** ** api.js: the shorter postQuery *)
(* ===================================================================== *)

(** The second [postQuery] of [api.js]: no [try] around [fetch], no check
    of the content type, the parsed body returned as it is.
    [json_rejection] is the error [response.json()] rejects with when it
    does. Reading [err.detail] of [null] throws inside the [try] block, so
    the status line stays. *)
Definition postQuery_basic (json_rejection : Exception) (f : FetchResult)
  : Outcome :=
  match f with
  | FetchAbort => Throw AbortError
  | FetchFail message => Throw (Error message)
  | FetchOk r b =>
      if negb (ok r) then
        let detail :=
          JStr (js "HTTP " ++ decimal (status r) ++ js " " ++ [en_dash]
                  ++ js " " ++ statusText r) in
        let detail :=
          match json b with
          | Some JNull | Some JUndefined | None => detail
          | Some err => js_or (get_prop err (js "detail")) detail
          end in
        Throw (Error (ToString detail))
      else
        match json b with
        | Some body => Return body
        | None => Throw json_rejection
        end
  end.

(* ===================================================================== *)
(** ** App.jsx: the controls *)
(* ===================================================================== *)

Record ExampleQuery := { short : jsstring; full : jsstring }.

Definition EXAMPLE_QUERIES : list ExampleQuery :=
  [ {| short := js "TransContinental summary";
       full := js "Show summary about contract with TransContinental Corp" |};
    {| short := js "EU Pending contracts";
       full := js "Which contracts in the EU region are currently in Pending status and what are their risk scores?" |};
    {| short := js "France Data Privacy";
       full := js "Show me the Data Privacy related contracts in France and summarize their compliance requirements." |};
    {| short := js "Asiatrade terms";
       full := js "What are the service agreement terms with Asiatrade Logistics?" |} ].

(** [disabled={loading}] of the text area and of the example pills. *)
Definition input_disabled (st : App) : bool := loading st.

(** [disabled={loading || !query.trim()}] of the Ask button. *)
Definition ask_disabled (st : App) : bool :=
  loading st || jsstring_eqb (trim (query st)) [].

(** [(query || result || error) && <button id="clear-btn" ...>] *)
Definition clear_rendered (st : App) : bool :=
  negb (jsstring_eqb (query st) []) || truthy (result st)
  || error_truthy (error st).

(** Whether the page lets the event happen: typing and the shortcut need
    the enabled text area, an example needs an enabled pill or a welcome
    card and carries one of the example queries, Clear needs its button;
    [Ask] stands for the button or the shortcut. The network and the clock
    are not the user's. *)
Definition ui_enabled (e : Event) (st : App) : bool :=
  match e with
  | Input _ => negb (input_disabled st)
  | Example text =>
      negb (input_disabled st)
      && bool_decide (text ∈ map full EXAMPLE_QUERIES)
  | Ask => negb (ask_disabled st) || negb (input_disabled st)
  | Clear => clear_rendered st
  | _ => true
  end.

(** The states reachable through the page as rendered. *)
Inductive ui_reachable : App -> Prop :=
  | ui_reachable_init : ui_reachable init
  | ui_reachable_step e st st' :
      ui_reachable st -> ui_enabled e st = true -> step e st = Some st' ->
      ui_reachable st'.

(** A run of events each of which the page allows. *)
Fixpoint ui_run (es : list Event) (st : App) : option App :=
  match es with
  | [] => Some st
  | e :: es' => if ui_enabled e st then step e st ≫= ui_run es' else None
  end.

(** The message [postQuery] throws when the body read of a response that
    has arrived is cut off. *)
Definition interrupted_message (resp : Response) : jsstring :=
  if ok resp then EMPTY_BODY
  else if includes (default [] (content_type resp)) (js "application/json")
  then js "HTTP " ++ decimal (status resp) ++ js " " ++ [en_dash]
         ++ js " " ++ statusText resp
  else js "HTTP " ++ decimal (status resp) ++ js " " ++ [en_dash]
         ++ js " Backend returned a non-JSON response. " ++ statusText resp.

(** Every controller but the current one is aborted, and the current one
    is the last one created. *)
Definition handles_inv (st : App) : Prop :=
  (forall c b, controllers st !! c = Some b -> abortRef st <> Some c ->
               b = true) /\
  match abortRef st with
  | Some c => S c = length (controllers st)
  | None => controllers st = []
  end.
(* ===================================================================== *)
(** ** Score bands: proofs *)
(* ===================================================================== *)

Lemma SFleb_trans x y z :
  SFleb x y = true -> SFleb y z = true -> SFleb x z = true.
Proof.
  unfold SFleb, SFcompare.
  destruct x as [sx|sx| |sx mx ex], y as [sy|sy| |sy my ey],
    z as [sz|sz| |sz mz ez];
    repeat match goal with b : bool |- _ => destruct b end;
    simpl; try congruence.
  all: destruct (Z.compare_spec ex ey), (Z.compare_spec ey ez),
         (Z.compare_spec ex ez); try congruence; try lia; subst.
  all: change (Pos.compare_cont Eq ?a ?b) with (Pos.compare a b).
  all: destruct (Pos.compare_spec mx my), (Pos.compare_spec my mz),
         (Pos.compare_spec mx mz); simpl; try congruence; try lia.
Qed.

Lemma geb_trans (x y z : float) :
  geb x y = true -> geb y z = true -> geb x z = true.
Proof.
  unfold geb. rewrite !FloatAxioms.leb_spec. intros H1 H2. exact (SFleb_trans _ _ _ H2 H1).
Qed.

(** C4: boundary values belong to the higher band on both scales. *)
Theorem band_boundaries :
  band Similarity 0.85 = Some High /\
  band Similarity 0.8499 = Some Medium /\
  band Similarity 0.70 = Some Medium /\
  band Similarity 0.6999 = Some Low /\
  band Compliance 85 = Some High /\
  band Compliance 84 = Some Medium.
Proof. repeat split; vm_compute; reflexivity. Qed.

Lemma SFleb_of_eqb x y : SFeqb x y = true -> SFleb x y = true /\ SFleb y x = true.
Proof.
  unfold SFeqb, SFleb, SFcompare.
  destruct x as [sx|sx| |sx mx ex], y as [sy|sy| |sy my ey];
    repeat match goal with b : bool |- _ => destruct b end;
    simpl; try congruence; try (split; reflexivity).
  all: destruct (Z.compare_spec ex ey), (Z.compare_spec ey ex);
    try congruence; try lia; subst.
  all: change (Pos.compare_cont Eq ?a ?b) with (Pos.compare a b).
  all: destruct (Pos.compare_spec mx my), (Pos.compare_spec my mx);
    simpl; try congruence; try lia; split; reflexivity.
Qed.

Lemma geb_of_eqb (x y : float) :
  (x =? y)%float = true -> geb x y = true /\ geb y x = true.
Proof.
  unfold geb. rewrite FloatAxioms.eqb_spec, !FloatAxioms.leb_spec. intros H.
  destruct (SFleb_of_eqb _ _ H). split; assumption.
Qed.

Lemma band_cases (scale : Scale) (s : float) :
  let hi := match scale with Similarity => 0.85%float | Compliance => 85%float end in
  let mid := match scale with Similarity => 0.70%float | Compliance => 70%float end in
  band scale s =
    Some (if geb s hi then High else if geb s mid then Medium else Low).
Proof.
  destruct scale; simpl; unfold scoreLevel, scoreColor;
    repeat match goal with |- context [geb s ?t] => destruct (geb s t) end;
    reflexivity.
Qed.

Lemma band_mono (scale : Scale) (s1 s2 : float) (b1 b2 : Band) :
  geb s1 s2 = true ->
  band scale s1 = Some b1 -> band scale s2 = Some b2 ->
  (band_rank b2 <= band_rank b1)%nat.
Proof.
  intros Hge. rewrite !band_cases.
  destruct scale.
  - destruct (geb s2 0.85) eqn:H2.
    + rewrite (geb_trans _ _ _ Hge H2). intros [= <-] [= <-]. simpl. lia.
    + destruct (geb s2 0.70) eqn:H2'.
      * rewrite (geb_trans _ _ _ Hge H2').
        destruct (geb s1 0.85); intros [= <-] [= <-]; simpl; lia.
      * intros _ [= <-]. simpl. lia.
  - destruct (geb s2 85) eqn:H2.
    + rewrite (geb_trans _ _ _ Hge H2). intros [= <-] [= <-]. simpl. lia.
    + destruct (geb s2 70) eqn:H2'.
      * rewrite (geb_trans _ _ _ Hge H2').
        destruct (geb s1 85); intros [= <-] [= <-]; simpl; lia.
      * intros _ [= <-]. simpl. lia.
Qed.

(** C5: on either scale [band] is total (every number, in range or not, has
    a band; a score at or above the top of the range is High, one at or
    below the bottom is Low), deterministic (numerically equal scores have
    the same band) and monotonic for Low < Medium < High. *)
Theorem band_total_monotone (scale : Scale) (s1 s2 : float) :
  (exists b, band scale s1 = Some b) /\
  (geb s1 (scale_max scale) = true -> band scale s1 = Some High) /\
  (geb (scale_min scale) s1 = true -> band scale s1 = Some Low) /\
  ((s1 =? s2)%float = true -> band scale s1 = band scale s2) /\
  (geb s1 s2 = true ->
   exists b1 b2, band scale s1 = Some b1 /\ band scale s2 = Some b2 /\
                 (band_rank b2 <= band_rank b1)%nat).
Proof.
  assert (Htot : forall s, exists b, band scale s = Some b).
  { intros s. rewrite band_cases. eauto. }
  assert (Hmono : forall a b, geb a b = true ->
            exists b1 b2, band scale a = Some b1 /\ band scale b = Some b2 /\
                          (band_rank b2 <= band_rank b1)%nat).
  { intros a b Hge. destruct (Htot a) as [b1 H1], (Htot b) as [b2 H2].
    exists b1, b2. repeat split; try assumption.
    exact (band_mono scale a b b1 b2 Hge H1 H2). }
  split; [apply Htot|]. split; [|split; [|split]].
  - intros Hmax. rewrite band_cases.
    destruct scale; simpl in *.
    + assert (H : geb 1 0.85 = true) by reflexivity.
      rewrite (geb_trans _ _ _ Hmax H). reflexivity.
    + assert (H : geb 100 85 = true) by reflexivity.
      rewrite (geb_trans _ _ _ Hmax H). reflexivity.
  - intros Hmin. rewrite band_cases. unfold scale_min in Hmin.
    destruct scale; simpl.
    + destruct (geb s1 0.85) eqn:H1.
      { pose proof (geb_trans _ _ _ Hmin H1) as H. discriminate H. }
      destruct (geb s1 0.70) eqn:H2.
      { pose proof (geb_trans _ _ _ Hmin H2) as H. discriminate H. }
      reflexivity.
    + destruct (geb s1 85) eqn:H1.
      { pose proof (geb_trans _ _ _ Hmin H1) as H. discriminate H. }
      destruct (geb s1 70) eqn:H2.
      { pose proof (geb_trans _ _ _ Hmin H2) as H. discriminate H. }
      reflexivity.
  - intros Heq. destruct (geb_of_eqb _ _ Heq) as [H12 H21].
    destruct (Hmono _ _ H12) as (b1 & b2 & E1 & E2 & Hle).
    destruct (Hmono _ _ H21) as (b2' & b1' & E2' & E1' & Hle').
    rewrite E1, E2. rewrite E1 in E1'. rewrite E2 in E2'.
    injection E1' as <-. injection E2' as <-.
    destruct b1, b2; simpl in *; try reflexivity; lia.
  - apply Hmono.
Qed.

Lemma band_total_monotone_witness :
  exists b1 b2, band Similarity 0.91 = Some b1 /\ band Similarity 0.73 = Some b2 /\
                (band_rank b2 <= band_rank b1)%nat.
Proof.
  apply (band_total_monotone Similarity 0.91 0.73). reflexivity.
Defined.

(* ===================================================================== *)
(** ** Audit status: proofs *)
(* ===================================================================== *)

(** C10: on every audit-status input (a string, [null] or [undefined])
    [statusClass] returns normally with one of the three class names:
    [passed] exactly when the input lower-cases to [passed], [failed]
    exactly when it lower-cases to [failed], and [pending] in every other
    case, absent and empty values included. *)
Theorem statusClass_total (status : JsValue) :
  is_status_input status ->
  exists c, statusClass status = Normal c /\
    (c = js "passed" \/ c = js "failed" \/ c = js "pending") /\
    (c = js "passed" <-> toLowerCase (status_text status) = js "passed") /\
    (c = js "failed" <-> toLowerCase (status_text status) = js "failed") /\
    (c = js "pending" <->
       toLowerCase (status_text status) <> js "passed" /\
       toLowerCase (status_text status) <> js "failed") /\
    (status = JNull \/ status = JUndefined \/ status = JStr [] ->
     c = js "pending").
Proof.
  intros Hin.
  assert (Hlow : call_toLowerCase (js_or status (JStr [])) =
                 Normal (toLowerCase (status_text status))).
  { destruct status as [| | | |s| |]; simpl in Hin; try contradiction;
      try reflexivity.
    unfold js_or. simpl. unfold jsstring_eqb.
    case_bool_decide as Hs; simpl; [subst s|]; reflexivity. }
  unfold statusClass. rewrite Hlow.
  set (s := toLowerCase (status_text status)).
  assert (Hne : js "passed" <> js "failed") by (vm_compute; discriminate).
  assert (Hne1 : js "passed" <> js "pending") by (vm_compute; discriminate).
  assert (Hne2 : js "failed" <> js "pending") by (vm_compute; discriminate).
  assert (Habs : status = JNull \/ status = JUndefined \/ status = JStr [] ->
                 s = []).
  { intros [->|[->| ->]]; reflexivity. }
  assert (Hnil1 : [] <> js "passed") by (vm_compute; discriminate).
  assert (Hnil2 : [] <> js "failed") by (vm_compute; discriminate).
  unfold jsstring_eqb.
  case_bool_decide as Hp; [|case_bool_decide as Hf]; eexists;
    (split; [reflexivity|]); clearbody s;
    intuition (subst; congruence).
Qed.

Lemma statusClass_total_witness :
  exists c, statusClass (JStr (js "PASSED")) = Normal c /\ c = js "passed".
Proof.
  destruct (statusClass_total (JStr (js "PASSED")) I) as (c & Hc & _ & Hp & _).
  exists c. split; [exact Hc|]. apply Hp. reflexivity.
Defined.
(* ===================================================================== *)
(** ** LoadingCard.jsx: proofs *)
(* ===================================================================== *)

Lemma advance_le (a : nat) :
  (a <= length STEPS - 1)%nat -> (advance a <= length STEPS - 1)%nat.
Proof. unfold advance. simpl. destruct (Nat.ltb_spec a 4); lia. Qed.

Lemma iter_advance (n a : nat) :
  (a <= length STEPS - 1)%nat ->
  Nat.iter n advance a = Nat.min (a + n) (length STEPS - 1).
Proof.
  intros Ha. induction n as [|n IH]; simpl in *.
  - lia.
  - rewrite IH. unfold advance. simpl.
    destruct (Nat.ltb_spec (Nat.min (a + n) 4) 4); lia.
Qed.

Lemma iter_tick (n : nat) (lc : LoadingCard) :
  Nat.iter n tick lc =
  {| active := Nat.iter n advance (active lc);
     next_tick := next_tick lc + STEP_INTERVAL_MS * Z.of_nat n |}.
Proof.
  induction n as [|n IH].
  - destruct lc; simpl. f_equal. unfold STEP_INTERVAL_MS. lia.
  - change (Nat.iter (S n) tick lc) with (tick (Nat.iter n tick lc)).
    rewrite IH. unfold tick; simpl. f_equal. unfold STEP_INTERVAL_MS. lia.
Qed.

(** The card after time has moved on to [t], in closed form. *)
Lemma card_elapse_spec (t0 t' t : Z) (lc : LoadingCard) :
  (t0 <= t' <= t)%Z ->
  active lc = Nat.min (Z.to_nat ((t' - t0) / STEP_INTERVAL_MS)) (length STEPS - 1) ->
  next_tick lc = (t0 + STEP_INTERVAL_MS * ((t' - t0) / STEP_INTERVAL_MS + 1))%Z ->
  active (card_elapse t lc) =
    Nat.min (Z.to_nat ((t - t0) / STEP_INTERVAL_MS)) (length STEPS - 1) /\
  next_tick (card_elapse t lc) =
    (t0 + STEP_INTERVAL_MS * ((t - t0) / STEP_INTERVAL_MS + 1))%Z.
Proof.
  intros Ht Ha Hn. unfold card_elapse.
  unfold STEP_INTERVAL_MS in *. simpl length in *.
  destruct (Z.ltb_spec t (next_tick lc)) as [Hlt|Hge].
  - assert ((t - t0) / 2200 = (t' - t0) / 2200)%Z as ->
      by (Z.div_mod_to_equations; lia).
    split; assumption.
  - rewrite iter_tick. simpl. rewrite iter_advance by (simpl; lia).
    simpl length.
    assert (0 <= (t - next_tick lc) / 2200)%Z by (apply Z.div_pos; lia).
    assert (0 <= (t' - t0) / 2200)%Z by (apply Z.div_pos; lia).
    assert ((t - t0) / 2200 =
            (t' - t0) / 2200 + ((t - next_tick lc) / 2200 + 1))%Z as ->
      by (Z.div_mod_to_equations; lia).
    unfold STEP_INTERVAL_MS. split; lia.
Qed.

(* ===================================================================== *)
(** ** api.js: proofs *)
(* ===================================================================== *)

Lemma jsstring_eqb_eq (a b : jsstring) : jsstring_eqb a b = true <-> a = b.
Proof. unfold jsstring_eqb. apply bool_decide_eq_true. Qed.

Lemma jsstring_eqb_neq (a b : jsstring) : jsstring_eqb a b = false <-> a <> b.
Proof. unfold jsstring_eqb. apply bool_decide_eq_false. Qed.

Lemma check_response_null (r : Response) :
  check_response r JNull =
  Throw (Error (if ok r then EMPTY_BODY
                else js "HTTP " ++ decimal (status r) ++ js " " ++ [en_dash]
                       ++ js " " ++ statusText r)).
Proof. unfold check_response. destruct (ok r); reflexivity. Qed.

Lemma check_response_return (r : Response) (body v : JsValue) :
  check_response r body = Return v -> v = body /\ truthy v = true /\ ok r = true.
Proof.
  unfold check_response. destruct (ok r); simpl; [|discriminate].
  destruct (truthy body) eqn:Hb; simpl; [|discriminate].
  intros [= <-]. auto.
Qed.

(** [postQuery] returns truthy bodies only. *)
Lemma postQuery_return (f : FetchResult) (v : JsValue) :
  postQuery f = Return v -> truthy v = true.
Proof.
  destruct f as [| m | r b]; simpl; try discriminate.
  destruct (includes _ _).
  - intros H. apply check_response_return in H. tauto.
  - destruct (ok r) eqn:Hok; simpl; [|discriminate].
    intros H. apply check_response_return in H. tauto.
Qed.

(** An aborted call throws: the AbortError itself while [fetch] is
    outstanding, an ordinary error once the body is being read. *)
Lemma postQuery_aborted (r : Request) :
  exists e, postQuery (aborted_result r) = Throw e /\
            (req_response r = None -> e = AbortError).
Proof.
  unfold aborted_result. destruct (req_response r) as [resp|]; simpl.
  - destruct (includes _ _); simpl.
    + rewrite check_response_null. eexists; split; [reflexivity|discriminate].
    + destruct (ok resp) eqn:Hok; simpl.
      * rewrite check_response_null. eexists; split; [reflexivity|discriminate].
      * eexists; split; [reflexivity|discriminate].
  - eexists; split; reflexivity.
Qed.
(* ===================================================================== *)
(** ** App.jsx: the invariant holds in every reachable state *)
(* ===================================================================== *)

Lemma Inv_init : Inv init.
Proof.
  split; [discriminate|]. split; [discriminate|].
  simpl. split; reflexivity.
Qed.

Lemma is_aborted_abort_other (st : App) (c c' : nat) :
  c <> c' -> is_aborted (abort c st) c' = is_aborted st c'.
Proof.
  intros Hne. unfold is_aborted, abort. simpl.
  rewrite list_lookup_insert_ne by assumption. reflexivity.
Qed.

(** In a reachable state no continuation is waiting and the render is up to
    date. *)
Lemma quiescent (st : App) : Inv st -> commit (microtasks st) = st.
Proof.
  intros (_ & _ & H). destruct st as [q l res err ar cs tm nt pd cd nw].
  simpl in H. destruct l.
  - destruct H as (r & t0 & lc & [Hp Hr Hl Ht Hres Herr Hs Hc Ha Hn]).
    simpl in *. subst. unfold microtasks, is_aborted; simpl.
    rewrite Hl. reflexivity.
  - destruct H as [Hp Ht Hc Ho]. simpl in *. subst. reflexivity.
Qed.

Lemma step_Ask_noop (st : App) :
  Inv st ->
  jsstring_eqb (trim (query st)) [] || loading st = true ->
  step Ask st = Some st.
Proof.
  intros HI Hg. unfold step. simpl. unfold handleSubmit. rewrite Hg.
  simpl. rewrite quiescent by assumption. reflexivity.
Qed.

Lemma length_abort_current (st : App) :
  length (controllers (abort_current st)) = length (controllers st).
Proof.
  unfold abort_current, abort. destruct (abortRef st); simpl;
    [apply length_insert|reflexivity].
Qed.

Lemma step_Ask_accept (st : App) :
  Inv st -> loading st = false -> trim (query st) <> [] ->
  step Ask st = Some (accepted st).
Proof.
  intros (_ & _ & H) Hl Hq. rewrite Hl in H. destruct H as [Hp Ht Hc _].
  unfold step. simpl. f_equal.
  unfold handleSubmit. rewrite Hl.
  apply jsstring_eqb_neq in Hq. rewrite Hq. simpl.
  destruct st as [q l res err ar cs tm nt pd cd nw]. simpl in *. subst.
  unfold accepted, abort_current, abort; simpl.
  destruct ar as [c|]; simpl;
    unfold microtasks, is_aborted; simpl;
    rewrite ?length_insert;
    rewrite lookup_app_r by (rewrite ?length_insert; lia);
    rewrite ?length_insert, Nat.sub_diag; simpl;
    unfold commit; simpl; rewrite insert_empty; reflexivity.
Qed.

Lemma catch_message_nonempty (err : Exception) : catch_message err <> [].
Proof.
  destruct err as [|m]; simpl; [discriminate|].
  destruct (jsstring_eqb m []) eqn:Hm; [discriminate|].
  apply jsstring_eqb_neq in Hm. exact Hm.
Qed.

Lemma find_request_single (c : nat) (r : Request) :
  find_request c [r] = if decide (req_ctrl r = c) then Some r else None.
Proof.
  unfold find_request. simpl. destruct (decide (req_ctrl r = c)); reflexivity.
Qed.

Lemma remove_request_single (r : Request) :
  remove_request (req_ctrl r) [r] = [].
Proof.
  unfold remove_request. rewrite filter_cons_False by (intros H; apply H; reflexivity).
  reflexivity.
Qed.

(** A suspended submission that is alone resumes into [settled]. *)
Lemma commit_resume (st : App) (r : Request) (t : Timer) (o : Outcome) :
  pending st = [r] -> timers st = {[ req_timer r := t ]} ->
  commit (resume r o st) = settled o st.
Proof.
  intros Hp Ht. destruct st as [q l res err ar cs tm nt pd cd nw].
  simpl in *. subst. unfold resume; simpl.
  rewrite remove_request_single.
  destruct o as [d|e]; unfold clearTimeout; simpl;
    rewrite delete_singleton_eq; reflexivity.
Qed.

(** The continuation an abort releases. *)
Lemma microtasks_aborted (st : App) (r : Request) :
  pending st = [r] -> is_aborted st (req_ctrl r) = true ->
  microtasks st = resume r (postQuery (aborted_result r)) st.
Proof.
  intros Hp Ha. unfold microtasks. rewrite Hp. simpl. rewrite Ha. reflexivity.
Qed.

Lemma microtasks_resume (st : App) (r : Request) (o : Outcome) :
  pending st = [r] -> microtasks (resume r o st) = resume r o st.
Proof.
  intros Hp. unfold microtasks at 1.
  assert (pending (resume r o st) = []) as ->; [|reflexivity].
  unfold resume. destruct o; simpl; rewrite Hp; apply remove_request_single.
Qed.

Lemma resume_settled (st : App) (r : Request) (t : Timer) (o : Outcome) :
  pending st = [r] -> timers st = {[ req_timer r := t ]} ->
  commit (microtasks (resume r o st)) = settled o st.
Proof.
  intros Hp Ht. rewrite microtasks_resume by exact Hp.
  eapply commit_resume; eassumption.
Qed.

Lemma Inv_settled (o : Outcome) (st : App) :
  (forall c, abortRef st = Some c -> (c < length (controllers st))%nat) ->
  result st = JNull -> error st = None ->
  Inv (settled o st).
Proof.
  intros Hb Hr He. split; [exact Hb|]. split.
  - simpl. destruct o as [d|e]; [rewrite He; discriminate|].
    intros m [= <-]. apply catch_message_nonempty.
  - simpl. split; try reflexivity. simpl.
    destruct o as [d|e]; [rewrite He; reflexivity|].
    rewrite Hr. apply andb_false_r.
Qed.

(** *** The events in a state where a submission is suspended *)

Section Suspended.

Variables (st : App) (r : Request) (t0 : Z) (lc : LoadingCard).
Hypothesis Hload : loading st = true.
Hypothesis HP : pending_inv st r t0 lc.

Lemma suspended_not_aborted : is_aborted st (req_ctrl r) = false.
Proof. unfold is_aborted. rewrite (pi_live _ _ _ _ HP). reflexivity. Qed.

Lemma suspended_quiet (st' : App) :
  pending st' = pending st -> controllers st' = controllers st ->
  microtasks st' = st'.
Proof.
  intros Hp Hc. unfold microtasks. rewrite Hp, (pi_pending _ _ _ _ HP). simpl.
  unfold is_aborted. rewrite Hc, (pi_live _ _ _ _ HP). reflexivity.
Qed.

Lemma suspended_commit (st' : App) :
  loading st' = true -> card st' = Some lc -> commit st' = st'.
Proof.
  intros Hl Hc. unfold commit. rewrite Hl, Hc. simpl.
  destruct st'; simpl in *; subst; reflexivity.
Qed.

Lemma suspended_Input (v : jsstring) :
  step (Input v) st = Some (setQuery v st).
Proof.
  unfold step; simpl. f_equal.
  rewrite suspended_quiet by reflexivity.
  apply suspended_commit; [exact Hload|exact (pi_card _ _ _ _ HP)].
Qed.

Lemma suspended_Example (v : jsstring) :
  step (Example v) st = Some (setQuery v st).
Proof.
  unfold step; simpl. f_equal.
  rewrite suspended_quiet by reflexivity.
  rewrite suspended_commit; [|exact Hload|exact (pi_card _ _ _ _ HP)].
  unfold fillExample.
  destruct HP as [_ _ _ _ Hres Herr _ _ _ _].
  destruct st; simpl in *; subst; reflexivity.
Qed.

Lemma suspended_Clear :
  step Clear st =
  Some (settled (postQuery (aborted_result r)) (handleClear st)).
Proof.
  unfold step; simpl. f_equal.
  destruct HP as [Hp Hr Hl Ht _ _ _ _ _ _].
  assert (Hlt : (req_ctrl r < length (controllers st))%nat)
    by (eapply lookup_lt_Some; exact Hl).
  assert (Hp' : pending (handleClear st) = [r]).
  { unfold handleClear, abort_current. rewrite Hr. exact Hp. }
  rewrite (microtasks_aborted _ r Hp').
  - apply commit_resume with
      (t := {| deadline := t0 + QUERY_TIMEOUT_MS; target := req_ctrl r |});
      [exact Hp'|].
    unfold handleClear, abort_current. rewrite Hr. exact Ht.
  - unfold handleClear, abort_current, is_aborted. rewrite Hr. simpl.
    rewrite list_lookup_insert_eq by exact Hlt. reflexivity.
Qed.

Lemma suspended_FetchResolves (c : nat) (resp : Response) :
  step (FetchResolves c resp) st =
  if decide (req_ctrl r = c) then
    match req_response r with
    | None => Some (set_pending [with_response resp r] st)
    | Some _ => None
    end
  else None.
Proof.
  unfold step; simpl. rewrite (pi_pending _ _ _ _ HP), find_request_single.
  destruct (decide (req_ctrl r = c)) as [Hc|Hc]; [|reflexivity].
  destruct (req_response r); [reflexivity|]. simpl. f_equal.
  rewrite bool_decide_eq_true_2 by exact Hc.
  unfold microtasks; simpl.
  change (is_aborted (set_pending [with_response resp r] st) (req_ctrl r))
    with (is_aborted st (req_ctrl r)).
  rewrite suspended_not_aborted.
  apply suspended_commit; [exact Hload|exact (pi_card _ _ _ _ HP)].
Qed.

Lemma suspended_FetchRejects (c : nat) (m : jsstring) :
  step (FetchRejects c m) st =
  if decide (req_ctrl r = c) then
    match req_response r with
    | None => Some (settled (postQuery (FetchFail m)) st)
    | Some _ => None
    end
  else None.
Proof.
  unfold step. simpl handle. rewrite (pi_pending _ _ _ _ HP), find_request_single.
  destruct (decide (req_ctrl r = c)) as [Hc|Hc]; [|reflexivity].
  destruct (req_response r); [reflexivity|]. simpl fmap. f_equal.
  eapply resume_settled; [exact (pi_pending _ _ _ _ HP)|exact (pi_timers _ _ _ _ HP)].
Qed.

Lemma suspended_BodyArrives (c : nat) (b : Body) :
  step (BodyArrives c b) st =
  if decide (req_ctrl r = c) then
    match req_response r with
    | Some resp => Some (settled (postQuery (FetchOk resp b)) st)
    | None => None
    end
  else None.
Proof.
  unfold step. simpl handle. rewrite (pi_pending _ _ _ _ HP), find_request_single.
  destruct (decide (req_ctrl r = c)) as [Hc|Hc]; [|reflexivity].
  destruct (req_response r); [|reflexivity]. simpl fmap. f_equal.
  eapply resume_settled; [exact (pi_pending _ _ _ _ HP)|exact (pi_timers _ _ _ _ HP)].
Qed.

Lemma suspended_Elapse (dt : Z) :
  step (Elapse dt) st =
  if bool_decide (0 <= dt)%Z && bool_decide (now st + dt <= t0 + QUERY_TIMEOUT_MS)%Z
  then Some (set_card (Some (card_elapse (now st + dt) lc))
                      (set_now (now st + dt) st))
  else None.
Proof.
  unfold step. simpl handle. rewrite (pi_timers _ _ _ _ HP), (pi_card _ _ _ _ HP).
  assert (bool_decide
            (map_Forall (fun (_ : nat) (t : Timer) => (now st + dt <= deadline t)%Z)
               ({[req_timer r := {| deadline := t0 + QUERY_TIMEOUT_MS;
                                    target := req_ctrl r |}]} : gmap nat Timer))
          = bool_decide (now st + dt <= t0 + QUERY_TIMEOUT_MS)%Z) as ->.
  { apply bool_decide_ext. rewrite map_Forall_singleton. reflexivity. }
  destruct (_ && _); [|reflexivity]. simpl fmap. f_equal.
  rewrite suspended_quiet by reflexivity.
  unfold commit; simpl. rewrite Hload. reflexivity.
Qed.

Lemma suspended_TimeoutFires (id : nat) :
  step (TimeoutFires id) st =
  if decide (id = req_timer r) then
    if bool_decide (t0 + QUERY_TIMEOUT_MS <= now st)%Z
    then Some (settled (postQuery (aborted_result r)) (abort (req_ctrl r) st))
    else None
  else None.
Proof.
  clear Hload.
  unfold step. simpl handle. rewrite (pi_timers _ _ _ _ HP).
  destruct (decide (id = req_timer r)) as [->|Hid].
  - rewrite lookup_singleton_eq. simpl.
    destruct (bool_decide _); [|reflexivity]. simpl fmap. f_equal.
    destruct HP as [Hp Hr Hl Ht _ _ _ _ _ _].
    assert (Hlt : (req_ctrl r < length (controllers st))%nat)
      by (eapply lookup_lt_Some; exact Hl).
    rewrite (microtasks_aborted _ r).
    + destruct st as [q l res err ar cs tm nt pd cd nw]. simpl in *. subst.
      unfold resume, abort, clearTimeout, settled; simpl.
      rewrite remove_request_single, delete_singleton_eq.
      destruct (postQuery (aborted_result r)); simpl;
        rewrite delete_empty; reflexivity.
    + exact Hp.
    + unfold is_aborted, abort, clearTimeout. simpl.
      rewrite list_lookup_insert_eq by exact Hlt. reflexivity.
  - rewrite lookup_singleton_ne by (intros H; apply Hid; symmetry; exact H).
    reflexivity.
Qed.

End Suspended.

(** *** The events in a state where nothing is suspended *)

Section Settled.

Variable st : App.
Hypothesis Hload : loading st = false.
Hypothesis HS : settled_inv st.

Lemma settled_quiet (st' : App) :
  pending st' = pending st -> loading st' = false -> card st' = card st ->
  commit (microtasks st') = st'.
Proof.
  intros Hp Hl Hc. unfold microtasks. rewrite Hp, (si_pending _ HS). simpl.
  unfold commit. rewrite Hl. rewrite (si_card _ HS) in Hc.
  destruct st'; simpl in *. rewrite Hc. reflexivity.
Qed.

Lemma settled_Input (v : jsstring) : step (Input v) st = Some (setQuery v st).
Proof.
  unfold step; simpl. f_equal. apply settled_quiet; auto.
Qed.

Lemma settled_Example (v : jsstring) :
  step (Example v) st = Some (fillExample v st).
Proof.
  unfold step; simpl. f_equal. apply settled_quiet; auto.
Qed.

Lemma settled_Clear : step Clear st = Some (handleClear st).
Proof.
  unfold step; simpl. f_equal.
  apply settled_quiet; unfold handleClear, abort_current;
    destruct (abortRef st); auto.
Qed.

Lemma settled_network (e : Event) :
  match e with
  | FetchResolves _ _ | FetchRejects _ _ | BodyArrives _ _ | TimeoutFires _ =>
      step e st = None
  | _ => True
  end.
Proof.
  destruct e; try exact I; unfold step; simpl;
    rewrite ?(si_pending _ HS), ?(si_timers _ HS), ?lookup_empty;
    reflexivity.
Qed.

Lemma settled_Elapse (dt : Z) :
  step (Elapse dt) st =
  if bool_decide (0 <= dt)%Z then Some (set_now (now st + dt) st) else None.
Proof.
  unfold step. simpl handle. rewrite (si_timers _ HS), (si_card _ HS).
  rewrite (bool_decide_eq_true_2 (map_Forall _ _)) by apply map_Forall_empty.
  rewrite andb_true_r. destruct (bool_decide _); [|reflexivity].
  simpl fmap. f_equal.
  pose proof (si_card _ HS) as Hc.
  rewrite settled_quiet;
    [|reflexivity|exact Hload|simpl; rewrite Hc; reflexivity].
  clear HS Hload.
  destruct st; simpl in *. rewrite Hc. reflexivity.
Qed.

End Settled.

(** *** Preservation *)

Lemma Inv_setQuery (v : jsstring) (st : App) : Inv st -> Inv (setQuery v st).
Proof.
  intros (Hb & He & H). split; [exact Hb|]. split; [exact He|].
  simpl. destruct (loading st).
  - destruct H as (r & t0 & lc & [? ? ? ? ? ? ? ? ? ?]).
    exists r, t0, lc. split; assumption.
  - destruct H as [? ? ? ?]. split; assumption.
Qed.

Lemma Inv_accepted (st : App) : Inv st -> loading st = false -> Inv (accepted st).
Proof.
  intros (Hb & He & H) Hl. split; [|split].
  - simpl. intros c [= <-]. rewrite length_app, length_abort_current. simpl. lia.
  - simpl. discriminate.
  - simpl.
    exists {| req_query := trim (query st); req_ctrl := length (controllers st);
              req_timer := next_timer st; req_response := None |},
      (now st), (mount (now st)).
    split; simpl; try reflexivity.
    + rewrite lookup_app_r by (rewrite length_abort_current; lia).
      rewrite length_abort_current, Nat.sub_diag. reflexivity.
    + unfold QUERY_TIMEOUT_MS. lia.
    + rewrite Z.sub_diag. reflexivity.
    + rewrite Z.sub_diag. unfold STEP_INTERVAL_MS.
      change (0 / 2200)%Z with 0%Z. lia.
Qed.

Lemma Inv_handleClear (st : App) :
  Inv st -> loading st = false -> Inv (handleClear st).
Proof.
  intros (Hb & He & H) Hl. rewrite Hl in H. destruct H as [Hp Ht Hc _].
  unfold handleClear, abort_current.
  split; [|split].
  - destruct (abortRef st) as [c|] eqn:Hr; simpl; rewrite ?Hr.
    + intros c' [= <-]. rewrite length_insert. auto.
    + discriminate.
  - destruct (abortRef st); simpl; discriminate.
  - destruct (abortRef st); simpl; split; simpl; auto.
Qed.

Lemma step_Inv (e : Event) (st st' : App) :
  Inv st -> step e st = Some st' -> Inv st'.
Proof.
  intros HI Hstep. pose proof HI as (Hb & He & H).
  destruct (loading st) eqn:Hl.
  - destruct H as (r & t0 & lc & HP).
    pose proof HP as [Hp Hr Hlive Ht Hres Herr Hs Hc Ha Hn].
    destruct e as [v|v| | |c resp|c m|c b|dt|id].
    + rewrite (suspended_Input _ _ _ _ Hl HP) in Hstep.
      injection Hstep as <-. apply Inv_setQuery, HI.
    + rewrite (suspended_Example _ _ _ _ Hl HP) in Hstep.
      injection Hstep as <-. apply Inv_setQuery, HI.
    + rewrite step_Ask_noop in Hstep by (auto; rewrite Hl; apply orb_true_r).
      injection Hstep as <-. exact HI.
    + rewrite (suspended_Clear _ _ _ _ HP) in Hstep. injection Hstep as <-.
      apply Inv_settled; unfold handleClear, abort_current; rewrite Hr;
        simpl; [|reflexivity|reflexivity].
      intros c' Hc'. rewrite length_insert. apply Hb. congruence.
    + rewrite (suspended_FetchResolves _ _ _ _ Hl HP) in Hstep.
      destruct (decide _); [|discriminate].
      destruct (req_response r); [discriminate|]. injection Hstep as <-.
      split; [exact Hb|]. split; [exact He|]. simpl. rewrite Hl.
      exists (with_response resp r), t0, lc.
      split; simpl; first [assumption | reflexivity].
    + rewrite (suspended_FetchRejects _ _ _ _ HP) in Hstep.
      destruct (decide _); [|discriminate].
      destruct (req_response r); [discriminate|]. injection Hstep as <-.
      apply Inv_settled; assumption.
    + rewrite (suspended_BodyArrives _ _ _ _ HP) in Hstep.
      destruct (decide _); [|discriminate].
      destruct (req_response r); [|discriminate]. injection Hstep as <-.
      apply Inv_settled; assumption.
    + rewrite (suspended_Elapse _ _ _ _ Hl HP) in Hstep.
      destruct (bool_decide (0 <= dt)%Z) eqn:H0; [|discriminate].
      destruct (bool_decide (now st + dt <= _)%Z) eqn:H1; [|discriminate].
      injection Hstep as <-.
      apply bool_decide_eq_true in H0, H1.
      split; [exact Hb|]. split; [exact He|]. simpl. rewrite Hl.
      exists r, t0, (card_elapse (now st + dt) lc).
      destruct (card_elapse_spec t0 (now st) (now st + dt) lc) as [Ha' Hn'];
        [lia|exact Ha|exact Hn|].
      split; simpl; try assumption; try reflexivity. lia.
    + rewrite (suspended_TimeoutFires _ _ _ _ HP) in Hstep.
      destruct (decide _); [|discriminate].
      destruct (bool_decide _); [|discriminate]. injection Hstep as <-.
      apply Inv_settled; simpl; [|assumption|assumption].
      intros c' Hc'. rewrite length_insert. apply Hb, Hc'.
  - destruct e as [v|v| | |c resp|c m|c b|dt|id].
    + rewrite (settled_Input _ Hl H) in Hstep. injection Hstep as <-.
      apply Inv_setQuery, HI.
    + rewrite (settled_Example _ Hl H) in Hstep. injection Hstep as <-.
      destruct H as [? ? ? ?].
      split; [exact Hb|]. split; [simpl; discriminate|]. simpl. rewrite Hl.
      split; simpl; auto.
    + destruct (jsstring_eqb (trim (query st)) []) eqn:Hq.
      * rewrite step_Ask_noop in Hstep by (auto; rewrite Hq; reflexivity).
        injection Hstep as <-. exact HI.
      * apply jsstring_eqb_neq in Hq.
        rewrite step_Ask_accept in Hstep by assumption.
        injection Hstep as <-. apply Inv_accepted; assumption.
    + rewrite (settled_Clear _ H) in Hstep. injection Hstep as <-.
      apply Inv_handleClear; assumption.
    + pose proof (settled_network _ H (FetchResolves c resp)) as Hn.
      simpl in Hn. congruence.
    + pose proof (settled_network _ H (FetchRejects c m)) as Hn.
      simpl in Hn. congruence.
    + pose proof (settled_network _ H (BodyArrives c b)) as Hn.
      simpl in Hn. congruence.
    + rewrite (settled_Elapse _ Hl H) in Hstep.
      destruct (bool_decide _); [|discriminate]. injection Hstep as <-.
      destruct H as [? ? ? ?].
      split; [exact Hb|]. split; [exact He|]. simpl. rewrite Hl.
      split; simpl; auto.
    + pose proof (settled_network _ H (TimeoutFires id)) as Hn.
      simpl in Hn. congruence.
Qed.

Lemma reachable_Inv (st : App) : reachable st -> Inv st.
Proof.
  induction 1 as [|e st st' _ IH Hstep]; [apply Inv_init|].
  exact (step_Inv e st st' IH Hstep).
Qed.

(** A turn that leaves a request pending leaves it as it was: the same
    timeout, the same controllers, a later clock and a card whose index has
    not gone down. *)
Lemma suspended_step (e : Event) (st st' : App) (r : Request) (t0 : Z)
      (lc : LoadingCard) :
  loading st = true -> pending_inv st r t0 lc ->
  step e st = Some st' -> loading st' = true ->
  timers st' = timers st /\ abortRef st' = abortRef st /\
  controllers st' = controllers st /\ (now st <= now st')%Z /\
  exists lc', card st' = Some lc' /\ (active lc <= active lc')%nat.
Proof.
  intros Hl HP Hstep Hl'.
  pose proof HP as [Hp Href Hlive Ht Hres Herr Hs Hc Ha Hn].
  assert (Hsame : forall s, timers s = timers st -> abortRef s = abortRef st ->
            controllers s = controllers st -> now s = now st ->
            card s = card st ->
            timers s = timers st /\ abortRef s = abortRef st /\
            controllers s = controllers st /\ (now st <= now s)%Z /\
            exists lc', card s = Some lc' /\ (active lc <= active lc')%nat).
  { intros s H1 H2 H3 H4 H5. repeat (split; [assumption|]).
    split; [lia|]. exists lc. rewrite H5. split; [exact Hc|lia]. }
  destruct e as [v|v| | |c resp|c m|c b|dt|id].
  - rewrite (suspended_Input _ _ _ _ Hl HP) in Hstep. injection Hstep as <-.
    apply Hsame; reflexivity.
  - rewrite (suspended_Example _ _ _ _ Hl HP) in Hstep. injection Hstep as <-.
    apply Hsame; reflexivity.
  - unfold step in Hstep. simpl in Hstep. unfold handleSubmit in Hstep.
    rewrite Hl, orb_true_r in Hstep.
    rewrite (suspended_quiet _ _ _ _ HP) in Hstep by reflexivity.
    rewrite (suspended_commit lc st) in Hstep by assumption.
    injection Hstep as <-.
    apply Hsame; reflexivity.
  - rewrite (suspended_Clear _ _ _ _ HP) in Hstep. injection Hstep as <-.
    discriminate Hl'.
  - rewrite (suspended_FetchResolves _ _ _ _ Hl HP) in Hstep.
    destruct (decide _); [|discriminate].
    destruct (req_response r); [discriminate|]. injection Hstep as <-.
    apply Hsame; reflexivity.
  - rewrite (suspended_FetchRejects _ _ _ _ HP) in Hstep.
    destruct (decide _); [|discriminate].
    destruct (req_response r); [discriminate|]. injection Hstep as <-.
    discriminate Hl'.
  - rewrite (suspended_BodyArrives _ _ _ _ HP) in Hstep.
    destruct (decide _); [|discriminate].
    destruct (req_response r); [|discriminate]. injection Hstep as <-.
    discriminate Hl'.
  - rewrite (suspended_Elapse _ _ _ _ Hl HP) in Hstep.
    destruct (bool_decide (0 <= dt)%Z) eqn:H0; [|discriminate].
    destruct (bool_decide (now st + dt <= _)%Z) eqn:H1; [|discriminate].
    injection Hstep as <-. simpl.
    apply bool_decide_eq_true in H0, H1.
    repeat (split; [reflexivity|]). split; [lia|].
    exists (card_elapse (now st + dt) lc). split; [reflexivity|].
    destruct (card_elapse_spec t0 (now st) (now st + dt) lc) as [Ha' _];
      [lia|exact Ha|exact Hn|].
    rewrite Ha, Ha'.
    assert ((now st - t0) / STEP_INTERVAL_MS
            <= (now st + dt - t0) / STEP_INTERVAL_MS)%Z
      by (apply Z.div_le_mono; unfold STEP_INTERVAL_MS; lia).
    lia.
  - rewrite (suspended_TimeoutFires _ _ _ _ HP) in Hstep.
    destruct (decide _); [|discriminate].
    destruct (bool_decide _); [|discriminate]. injection Hstep as <-.
    discriminate Hl'.
Qed.

Lemma run_reachable (es : list Event) (st st' : App) :
  reachable st -> run es st = Some st' -> reachable st'.
Proof.
  revert st. induction es as [|e es IH]; intros st Hr; simpl.
  - intros [= <-]. exact Hr.
  - destruct (step e st) as [st1|] eqn:He; simpl; [|discriminate].
    apply IH. exact (reachable_step e st st1 Hr He).
Qed.

Lemma lifecycle_settled_throw (err : Exception) (st : App) :
  lifecycle (settled (Throw err) st) = Failed (catch_message err).
Proof.
  unfold lifecycle. simpl.
  pose proof (catch_message_nonempty err) as Hne.
  apply jsstring_eqb_neq in Hne. rewrite Hne. reflexivity.
Qed.

(* ===================================================================== *)
(** ** The claims about the query lifecycle *)
(* ===================================================================== *)

(** C2: in every reachable state the four conditional blocks of the JSX
    render exactly one view, the one of the lifecycle variant the state
    stands for: the welcome card for Idle, the loading card for Pending, the
    error card for Failed, the answer, chunks and records for Succeeded. *)
Theorem one_view (st : App) :
  reachable st ->
  render st = [dispatch (lifecycle st)] /\ length (render st) = 1%nat.
Proof.
  intros Hr. apply reachable_Inv in Hr. destruct Hr as (_ & He & H).
  assert (Hrender : render st = [dispatch (lifecycle st)]);
    [|split; [exact Hrender|rewrite Hrender; reflexivity]].
  unfold render, lifecycle. destruct (loading st).
  - destruct H as (r & t0 & lc & [_ _ _ _ Hres Herr _ _ _ _]).
    rewrite Hres, Herr. reflexivity.
  - destruct H as [_ _ _ Hone]. simpl.
    destruct (error st) as [m|] eqn:Hm; simpl in *.
    + pose proof (He m eq_refl) as Hne. apply jsstring_eqb_neq in Hne.
      rewrite Hne in *. simpl in *. rewrite Hone. reflexivity.
    + destruct (truthy (result st)); reflexivity.
Qed.

Lemma trimStart_whitespace (q : jsstring) :
  forallb is_whitespace q = true -> trimStart q = [].
Proof.
  induction q as [|c q IH]; simpl; [reflexivity|].
  intros H. apply andb_true_iff in H as [Hc Hq]. rewrite Hc. exact (IH Hq).
Qed.

Lemma trim_whitespace (q : jsstring) :
  forallb is_whitespace q = true -> trim q = [].
Proof.
  intros H. unfold trim. rewrite (trimStart_whitespace q H). reflexivity.
Qed.

(** C6: with an empty or whitespace-only query, or while a request is
    pending, [handleSubmit] returns the state it was given: the three state
    variables, the controllers, the timeouts and the suspended calls of
    [postQuery] are the same, and so is the state after the whole turn. *)
Theorem submit_noop (st : App) :
  forallb is_whitespace (query st) = true \/ loading st = true ->
  handleSubmit st = st /\ (reachable st -> step Ask st = Some st).
Proof.
  intros Hg.
  assert (Hb : jsstring_eqb (trim (query st)) [] || loading st = true).
  { destruct Hg as [Hq|Hl].
    - apply trim_whitespace, jsstring_eqb_eq in Hq. rewrite Hq. reflexivity.
    - rewrite Hl. apply orb_true_r. }
  split.
  - unfold handleSubmit. rewrite Hb. reflexivity.
  - intros Hr. apply step_Ask_noop; [apply reachable_Inv, Hr|exact Hb].
Qed.

(** C1, amended: a submit while a request is pending does nothing, so the
    pending request is never superseded; an accepted submit aborts the
    controller left in [abortRef] and only then creates the new one, which
    becomes the current one and carries the only suspended call; at any time
    a suspended call belongs to the current, un-aborted controller, and no
    response can be delivered for any other or for an aborted one. *)
Theorem current_handle_only (st : App) :
  reachable st ->
  (loading st = true -> step Ask st = Some st) /\
  (loading st = false -> trim (query st) <> [] ->
   exists st', step Ask st = Some st' /\
     controllers st' = controllers (abort_current st) ++ [false] /\
     (forall c, abortRef st = Some c -> is_aborted st' c = true) /\
     abortRef st' = Some (length (controllers st)) /\
     is_aborted st' (length (controllers st)) = false /\
     exists r, pending st' = [r] /\ req_ctrl r = length (controllers st) /\
               req_query r = trim (query st)) /\
  (forall r, r ∈ pending st ->
     pending st = [r] /\ abortRef st = Some (req_ctrl r) /\
     is_aborted st (req_ctrl r) = false /\ loading st = true) /\
  (forall c, abortRef st <> Some c \/ is_aborted st c = true ->
     forall resp m b,
       step (FetchResolves c resp) st = None /\
       step (FetchRejects c m) st = None /\
       step (BodyArrives c b) st = None).
Proof.
  intros Hr. pose proof (reachable_Inv st Hr) as HI.
  pose proof HI as (Hb & He & H).
  split; [|split; [|split]].
  - intros Hl. apply step_Ask_noop; [exact HI|]. rewrite Hl. apply orb_true_r.
  - intros Hl Hq. exists (accepted st).
    split; [apply step_Ask_accept; assumption|].
    split; [reflexivity|]. split; [|split; [reflexivity|split]].
    + intros c Hc. unfold is_aborted, accepted, abort_current, abort. simpl.
      rewrite Hc. simpl.
      rewrite lookup_app_l by (rewrite length_insert; apply Hb, Hc).
      rewrite list_lookup_insert_eq by (apply Hb, Hc). reflexivity.
    + unfold is_aborted, accepted. simpl.
      rewrite lookup_app_r by (rewrite length_abort_current; lia).
      rewrite length_abort_current, Nat.sub_diag. reflexivity.
    + eexists. split; [reflexivity|]. split; reflexivity.
  - intros r Hin. destruct (loading st) eqn:Hl.
    + destruct H as (r' & t0 & lc & HP).
      rewrite (pi_pending _ _ _ _ HP) in Hin.
      apply list_elem_of_singleton in Hin. subst r'.
      split; [exact (pi_pending _ _ _ _ HP)|].
      split; [exact (pi_ref _ _ _ _ HP)|].
      split; [exact (suspended_not_aborted _ _ _ _ HP)|reflexivity].
    + rewrite (si_pending _ H) in Hin. inversion Hin.
  - intros c Hc resp m b. destruct (loading st) eqn:Hl.
    + destruct H as (r & t0 & lc & HP).
      rewrite (suspended_FetchResolves _ _ _ _ Hl HP),
        (suspended_FetchRejects _ _ _ _ HP), (suspended_BodyArrives _ _ _ _ HP).
      destruct (decide (req_ctrl r = c)) as [<-|Hne]; [|auto].
      exfalso. destruct Hc as [Hc|Hc].
      * apply Hc. exact (pi_ref _ _ _ _ HP).
      * rewrite (suspended_not_aborted _ _ _ _ HP) in Hc. discriminate.
    + pose proof (settled_network _ H (FetchResolves c resp)) as H1.
      pose proof (settled_network _ H (FetchRejects c m)) as H2.
      pose proof (settled_network _ H (BodyArrives c b)) as H3.
      auto.
Qed.

(** C7, amended: the clear handler itself leaves the state Idle with an
    empty query, and a clear with nothing pending ends there; a clear while
    a request is pending aborts it, and the aborted request then resumes in
    its [catch] clause, so the turn ends Failed (with the time-out or
    cancelled message when [fetch] was still outstanding), with an empty
    query, no result, nothing suspended and no timeout armed. *)
Theorem clear_outcome (st : App) :
  reachable st ->
  lifecycle (handleClear st) = Idle /\ query (handleClear st) = [] /\
  (loading st = false -> step Clear st = Some (handleClear st)) /\
  (loading st = true ->
   exists st' m, step Clear st = Some st' /\ lifecycle st' = Failed m /\
     query st' = [] /\ result st' = JNull /\ loading st' = false /\
     pending st' = [] /\ timers st' = ∅ /\
     (forall c, abortRef st = Some c -> is_aborted st' c = true) /\
     ((forall r, r ∈ pending st -> req_response r = None) ->
      m = ABORT_MESSAGE)).
Proof.
  intros Hr. pose proof (reachable_Inv st Hr) as HI.
  pose proof HI as (Hb & He & H).
  split; [reflexivity|]. split; [reflexivity|]. split.
  - intros Hl. rewrite Hl in H. apply settled_Clear. exact H.
  - intros Hl. rewrite Hl in H. destruct H as (r & t0 & lc & HP).
    destruct (postQuery_aborted r) as (err & Herr & Hfetch).
    exists (settled (Throw err) (handleClear st)), (catch_message err).
    split; [rewrite (suspended_Clear _ _ _ _ HP), Herr; reflexivity|].
    split; [apply lifecycle_settled_throw|].
    repeat (split; [reflexivity|]). split.
    + intros c Hc. unfold is_aborted, settled, handleClear, abort_current, abort.
      simpl. rewrite Hc. simpl.
      rewrite list_lookup_insert_eq by (apply Hb, Hc). reflexivity.
    + intros Hall. rewrite Hfetch; [reflexivity|].
      apply Hall. rewrite (pi_pending _ _ _ _ HP). apply list_elem_of_singleton.
      reflexivity.
Qed.

(** X14: the timeout is [QUERY_TIMEOUT_MS] = 90 000 ms. Whenever nothing is
    pending no timeout is armed, so none can fire after a request has
    resolved, and every turn that ends a pending request leaves none armed.
    An accepted submit arms one timeout, due 90 000 ms later. While the
    request is pending the timeout stays armed as it is, time can run up to
    the deadline and not beyond it, the timeout cannot fire before it, and
    at the deadline it fires, aborts the controller and leaves the state
    Failed, with the time-out message when [fetch] has not resolved, no
    timeout armed and nothing suspended. *)
Theorem timeout_guard (st : App) :
  reachable st ->
  QUERY_TIMEOUT_MS = 90000%Z /\
  (loading st = false ->
   timers st = ∅ /\ pending st = [] /\
   forall id, step (TimeoutFires id) st = None) /\
  (loading st = false -> trim (query st) <> [] ->
   exists st1, step Ask st = Some st1 /\ loading st1 = true /\
     now st1 = now st /\ abortRef st1 = Some (length (controllers st)) /\
     timers st1 = {[ next_timer st :=
                       {| deadline := now st + QUERY_TIMEOUT_MS;
                          target := length (controllers st) |} ]}) /\
  (loading st = true ->
   exists id d c,
     timers st = {[ id := {| deadline := d; target := c |} ]} /\
     abortRef st = Some c /\ is_aborted st c = false /\ (now st <= d)%Z /\
     (forall e st', step e st = Some st' -> loading st' = false ->
        timers st' = ∅ /\ pending st' = []) /\
     (forall e st', step e st = Some st' -> loading st' = true ->
        timers st' = timers st /\ abortRef st' = abortRef st /\
        is_aborted st' c = false /\ (now st <= now st')%Z) /\
     (forall dt, step (Elapse dt) st = None <-> (dt < 0 \/ d < now st + dt)%Z) /\
     (forall dt st', step (Elapse dt) st = Some st' ->
        now st' = (now st + dt)%Z /\ lifecycle st' = Pending /\
        pending st' = pending st) /\
     ((now st < d)%Z -> step (TimeoutFires id) st = None) /\
     (now st = d ->
      exists st' m, step (TimeoutFires id) st = Some st' /\
        now st' = d /\ is_aborted st' c = true /\
        lifecycle st' = Failed m /\ timers st' = ∅ /\ pending st' = [] /\
        ((forall r, r ∈ pending st -> req_response r = None) ->
         m = ABORT_MESSAGE))).
Proof.
  intros Hr. pose proof (reachable_Inv st Hr) as HI.
  pose proof HI as (Hb & He & H).
  split; [reflexivity|]. split; [|split].
  - intros Hl. rewrite Hl in H.
    split; [exact (si_timers _ H)|]. split; [exact (si_pending _ H)|].
    intros id. exact (settled_network _ H (TimeoutFires id)).
  - intros Hl Hq. exists (accepted st).
    split; [apply step_Ask_accept; assumption|]. repeat split.
  - intros Hl. rewrite Hl in H. destruct H as (r & t0 & lc & HP).
    pose proof HP as [Hp Href Hlive Ht Hres Herr Hs Hc Ha Hn].
    exists (req_timer r), (t0 + QUERY_TIMEOUT_MS)%Z, (req_ctrl r).
    split; [exact Ht|]. split; [exact Href|].
    split; [exact (suspended_not_aborted _ _ _ _ HP)|].
    split; [lia|]. split; [|split; [|split; [|split; [|split]]]].
    + intros e st' Hstep Hl'.
      destruct (step_Inv e st st' HI Hstep) as (_ & _ & H').
      rewrite Hl' in H'. split; [exact (si_timers _ H')|exact (si_pending _ H')].
    + intros e st' Hstep Hl'.
      destruct (suspended_step e st st' r t0 lc Hl HP Hstep Hl')
        as (H1 & H2 & H3 & H4 & _).
      repeat (split; [assumption|]). split; [|exact H4].
      unfold is_aborted. rewrite H3, Hlive. reflexivity.
    + intros dt. rewrite (suspended_Elapse _ _ _ _ Hl HP).
      destruct (bool_decide (0 <= dt)%Z) eqn:H0;
        destruct (bool_decide (now st + dt <= t0 + QUERY_TIMEOUT_MS)%Z) eqn:H1;
        simpl;
        try apply bool_decide_eq_true in H0; try apply bool_decide_eq_true in H1;
        try apply bool_decide_eq_false in H0; try apply bool_decide_eq_false in H1;
        split; intros Hx; try reflexivity; try discriminate; lia.
    + intros dt st'. rewrite (suspended_Elapse _ _ _ _ Hl HP).
      destruct (_ && _); [|discriminate]. intros [= <-].
      unfold lifecycle. simpl. rewrite Hl. repeat split.
    + intros Hlt. rewrite (suspended_TimeoutFires _ _ _ _ HP).
      rewrite decide_True by reflexivity.
      rewrite bool_decide_eq_false_2 by lia. reflexivity.
    + intros Heq. destruct (postQuery_aborted r) as (err & Hthrow & Hfetch).
      exists (settled (Throw err) (abort (req_ctrl r) st)), (catch_message err).
      split.
      { rewrite (suspended_TimeoutFires _ _ _ _ HP).
        rewrite decide_True by reflexivity.
        rewrite bool_decide_eq_true_2 by lia. rewrite Hthrow. reflexivity. }
      split; [exact Heq|]. split.
      { unfold is_aborted, settled, abort. simpl.
        rewrite list_lookup_insert_eq by (apply Hb, Href). reflexivity. }
      split; [apply lifecycle_settled_throw|].
      split; [reflexivity|]. split; [reflexivity|].
      intros Hall. rewrite Hfetch; [reflexivity|].
      apply Hall. rewrite Hp. apply list_elem_of_singleton. reflexivity.
Qed.

(** C8: there are five steps and the interval is 2200 ms; the updater run
    [n] times from 0 gives [min n 4], so the index stops at the last step.
    No card is mounted unless a request is pending (leaving the pending
    state unmounts it and clears its interval); an accepted submit mounts a
    new card at index 0 together with the timeout; while the request is
    pending the index is the number of whole intervals since the submit,
    capped at the last step, and no turn that keeps the request pending
    makes it smaller. *)
Theorem step_indicator (st : App) :
  reachable st ->
  length STEPS = 5%nat /\ STEP_INTERVAL_MS = 2200%Z /\
  (forall n, Nat.iter n advance 0%nat = Nat.min n (length STEPS - 1)) /\
  (loading st = false -> card st = None) /\
  (loading st = false -> trim (query st) <> [] ->
   exists st1 lc id t,
     step Ask st = Some st1 /\ loading st1 = true /\
     card st1 = Some lc /\ active lc = 0%nat /\
     timers st1 = {[ id := t ]} /\
     (deadline t - QUERY_TIMEOUT_MS)%Z = now st1) /\
  (loading st = true ->
   exists lc id t,
     card st = Some lc /\ timers st = {[ id := t ]} /\
     (deadline t - QUERY_TIMEOUT_MS <= now st)%Z /\
     active lc =
       Nat.min (Z.to_nat ((now st - (deadline t - QUERY_TIMEOUT_MS))
                          / STEP_INTERVAL_MS))
               (length STEPS - 1) /\
     (active lc < length STEPS)%nat /\
     (forall e st', step e st = Some st' -> loading st' = true ->
        timers st' = timers st /\
        exists lc', card st' = Some lc' /\ (active lc <= active lc')%nat)).
Proof.
  intros Hr. pose proof (reachable_Inv st Hr) as HI.
  pose proof HI as (Hb & He & H).
  split; [reflexivity|]. split; [reflexivity|].
  split; [intros n; rewrite iter_advance by (simpl; lia); reflexivity|].
  split; [|split].
  - intros Hl. rewrite Hl in H. exact (si_card _ H).
  - intros Hl Hq.
    exists (accepted st), (mount (now st)), (next_timer st),
      {| deadline := now st + QUERY_TIMEOUT_MS;
         target := length (controllers st) |}.
    split; [apply step_Ask_accept; assumption|].
    repeat (split; [reflexivity|]). simpl. lia.
  - intros Hl. rewrite Hl in H. destruct H as (r & t0 & lc & HP).
    pose proof HP as [Hp Href Hlive Ht Hres Herr Hs Hc Ha Hn].
    exists lc, (req_timer r),
      {| deadline := t0 + QUERY_TIMEOUT_MS; target := req_ctrl r |}.
    split; [exact Hc|]. split; [exact Ht|]. simpl.
    replace (t0 + QUERY_TIMEOUT_MS - QUERY_TIMEOUT_MS)%Z with t0 by lia.
    split; [lia|]. split; [exact Ha|]. split; [rewrite Ha; simpl; lia|].
    intros e st' Hstep Hl'.
    destruct (suspended_step e st st' r t0 lc Hl HP Hstep Hl')
      as (H1 & _ & _ & _ & H5).
    split; assumption.
Qed.

(** C9, amended: a response that is not 2xx and whose content type is not
    JSON makes [postQuery] throw an error naming the status code, followed
    by the first 200 code units of the body text, or by the status text
    when that text is empty or could not be read; a 2xx response makes
    [postQuery] return only a truthy body parsed from a JSON content type,
    and in every other case throw the empty-body error. *)
Theorem postQuery_body_errors (r : Response) (b : Body) :
  (ok r = false ->
   includes (default [] (content_type r)) (js "application/json") = false ->
   let excerpt :=
     if jsstring_eqb (default [] (text b)) [] then statusText r
     else slice0 200 (default [] (text b)) in
   postQuery (FetchOk r b) =
     Throw (Error (js "HTTP " ++ decimal (status r) ++ js " " ++ [en_dash]
                     ++ js " Backend returned a non-JSON response. "
                     ++ excerpt)) /\
   (text b <> None -> text b <> Some [] ->
    (length excerpt <= 200)%nat /\ excerpt `prefix_of` default [] (text b))) /\
  (ok r = true ->
   (forall v, postQuery (FetchOk r b) = Return v <->
      includes (default [] (content_type r)) (js "application/json") = true /\
      json b = Some v /\ truthy v = true) /\
   ((forall v, postQuery (FetchOk r b) <> Return v) ->
    postQuery (FetchOk r b) = Throw (Error EMPTY_BODY))).
Proof.
  split.
  - intros Hok Hct. cbv zeta. unfold postQuery. rewrite Hct, Hok.
    change (negb false) with true. cbv iota. split.
    + destruct (jsstring_eqb (default [] (text b)) []); reflexivity.
    + intros Hsome Hne. destruct (text b) as [t|]; [|contradiction].
      change (default [] (Some t)) with t.
      assert (Ht : jsstring_eqb t [] = false).
      { apply jsstring_eqb_neq. intros ->. apply Hne. reflexivity. }
      rewrite Ht. unfold slice0. split.
      * rewrite length_take. lia.
      * apply prefix_take.
  - intros Hok. simpl. unfold check_response. rewrite Hok. simpl.
    destruct (includes _ _); simpl.
    + destruct (json b) as [v'|]; simpl.
      * destruct (truthy v') eqn:Hv; simpl.
        -- split.
           ++ intros v. split.
              ** intros [= <-]. auto.
              ** intros (_ & [= <-] & _). reflexivity.
           ++ intros Hno. exfalso. apply (Hno v'). reflexivity.
        -- split.
           ++ intros v. split; [discriminate|].
              intros (_ & [= <-] & Hv'). congruence.
           ++ reflexivity.
      * split.
        -- intros v. split; [discriminate|]. intros (_ & Hj & _). discriminate.
        -- reflexivity.
    + split.
      * intros v. split; [discriminate|]. intros (Hf & _). discriminate.
      * reflexivity.
Qed.

(* ===================================================================== *)
(** ** api.js: further properties of postQuery *)
(* ===================================================================== *)

Lemma startsWith_app (p s : jsstring) : startsWith (p ++ s) p = true.
Proof.
  induction p as [|a p IH]; simpl; [destruct s; reflexivity|].
  rewrite N.eqb_refl. exact IH.
Qed.

Lemma includes_here (p s : jsstring) : includes (p ++ s) p = true.
Proof.
  pose proof (startsWith_app p s) as H.
  destruct (p ++ s); cbn [includes]; rewrite H; reflexivity.
Qed.

Lemma includes_app_r (a s needle : jsstring) :
  includes s needle = true -> includes (a ++ s) needle = true.
Proof.
  intros H. induction a as [|c a IH]; simpl; [exact H|].
  rewrite IH. apply orb_true_r.
Qed.

Lemma check_response_not_abort (r : Response) (body : JsValue) :
  check_response r body <> Throw AbortError.
Proof.
  unfold check_response. destruct (negb (ok r)); [discriminate|].
  destruct (negb (truthy body)); discriminate.
Qed.

(** X1: [postQuery] throws the AbortError exactly when [fetch] was aborted;
    a network failure is thrown as an ordinary error whose message starts
    with [Network error] and quotes the cause, never as an abort. *)
Theorem postQuery_abort_only (f : FetchResult) :
  (postQuery f = Throw AbortError <-> f = FetchAbort) /\
  (forall cause, f = FetchFail cause ->
     postQuery f <> Throw AbortError /\
     exists m, postQuery f = Throw (Error m) /\
               startsWith m (js "Network error") = true /\
               includes m cause = true).
Proof.
  split.
  - split.
    + destruct f as [|m|r b]; simpl; [reflexivity|discriminate|].
      intros H. exfalso. revert H.
      destruct (includes _ _); [apply check_response_not_abort|].
      destruct (negb (ok r)); [discriminate|apply check_response_not_abort].
    + intros ->. reflexivity.
  - intros cause ->. split; [discriminate|].
    unfold postQuery. eexists. split; [reflexivity|]. split.
    + set (rest := [en_dash] ++ _).
      change (js "Network error " ++ rest)
        with (js "Network error" ++ (js " " ++ rest)).
      apply startsWith_app.
    + do 4 apply includes_app_r. apply includes_here.
Qed.



(** X4: the two versions of [postQuery] agree where the longer one
    succeeds: whatever it returns, the shorter one returns too. What the
    shorter one returns, the longer one returns as well or rejects as an
    empty body (a falsy body, or a content type other than JSON). Both
    pass an aborted [fetch] on as the AbortError. *)
Theorem postQuery_versions (e : Exception) (f : FetchResult) (v : JsValue) :
  (postQuery f = Return v -> postQuery_basic e f = Return v) /\
  (postQuery_basic e f = Return v ->
   postQuery f = Return v \/ postQuery f = Throw (Error EMPTY_BODY)) /\
  (f = FetchAbort ->
   postQuery f = Throw AbortError /\ postQuery_basic e f = Throw AbortError).
Proof.
  split; [|split].
  - destruct f as [|m|r b]; simpl; try discriminate.
    destruct (includes _ _).
    + intros H. apply check_response_return in H as (-> & Hv & Hok).
      rewrite Hok. simpl.
      destruct (json b) as [body|]; simpl in *; [reflexivity|discriminate].
    + destruct (ok r) eqn:Hok; simpl; [|discriminate].
      rewrite check_response_null, Hok. discriminate.
  - destruct f as [|m|r b]; simpl; try discriminate.
    destruct (ok r) eqn:Hok; simpl; [|discriminate].
    destruct (json b) as [body|]; [|discriminate]. intros [= ->]. simpl.
    unfold check_response. rewrite Hok. simpl.
    destruct (includes _ _); [|right; reflexivity].
    destruct (truthy v); simpl; [left|right]; reflexivity.
  - intros ->. split; reflexivity.
Qed.


(* ===================================================================== *)
(** ** App.jsx: further properties of the lifecycle *)
(* ===================================================================== *)

Lemma pending_loading (st : App) (r : Request) :
  Inv st -> pending st = [r] ->
  loading st = true /\ exists t0 lc, pending_inv st r t0 lc.
Proof.
  intros (_ & _ & H) Hp. destruct (loading st).
  - split; [reflexivity|]. destruct H as (r' & t0 & lc & HP).
    pose proof (pi_pending _ _ _ _ HP) as Hp'. rewrite Hp in Hp'.
    injection Hp' as ->. eauto.
  - rewrite (si_pending _ H) in Hp. discriminate.
Qed.

Lemma render_settled (o : Outcome) (st : App) :
  result st = JNull -> error st = None ->
  (forall v, o = Return v -> truthy v = true) ->
  render (settled o st) =
  [match o with
   | Return v => ResultsView v
   | Throw err => ErrorView (catch_message err)
   end].
Proof.
  intros Hres Herr Hv. unfold render. simpl. destruct o as [v|err].
  - rewrite Herr, (Hv v eq_refl). reflexivity.
  - rewrite Hres. simpl.
    pose proof (catch_message_nonempty err) as Hne.
    apply jsstring_eqb_neq in Hne. rewrite Hne. reflexivity.
Qed.

(** X3: however the request in flight ends, the page shows it. When the
    body arrives the turn ends with the results on screen if [postQuery]
    returns, and otherwise with the error card, whose text is the stored
    message and is never empty (so the fallback text of [ErrorCard] is not
    needed), also when the backend sends an empty error detail. A network
    failure ends with the error card too. *)
Theorem settlement_is_shown (st : App) (r : Request) :
  reachable st -> pending st = [r] ->
  (forall resp b, req_response r = Some resp ->
   exists st', step (BodyArrives (req_ctrl r) b) st = Some st' /\
     loading st' = false /\ timers st' = ∅ /\
     match postQuery (FetchOk resp b) with
     | Return v => render st' = [ResultsView v] /\ result st' = v
     | Throw err =>
         render st' = [ErrorView (catch_message err)] /\
         ErrorCard (error st') = catch_message err /\
         catch_message err <> []
     end) /\
  (forall cause, req_response r = None ->
   exists st' m, step (FetchRejects (req_ctrl r) cause) st = Some st' /\
     render st' = [ErrorView m] /\ ErrorCard (error st') = m /\
     includes m cause = true).
Proof.
  intros Hr Hp. pose proof (reachable_Inv st Hr) as HI.
  destruct (pending_loading st r HI Hp) as (Hl & t0 & lc & HP).
  pose proof HP as [_ _ _ _ Hres Herr _ _ _ _].
  split.
  - intros resp b Hresp.
    exists (settled (postQuery (FetchOk resp b)) st).
    rewrite (suspended_BodyArrives _ _ _ _ HP), decide_True by reflexivity.
    rewrite Hresp. split; [reflexivity|]. split; [reflexivity|].
    split; [reflexivity|].
    pose proof (render_settled (postQuery (FetchOk resp b)) st Hres Herr
                  (postQuery_return _)) as Hrender.
    destruct (postQuery (FetchOk resp b)) as [v|err].
    + split; [exact Hrender|reflexivity].
    + split; [exact Hrender|].
      pose proof (catch_message_nonempty err) as Hne.
      split; [|exact Hne]. unfold ErrorCard. simpl.
      apply jsstring_eqb_neq in Hne. rewrite Hne. reflexivity.
  - intros cause Hresp.
    exists (settled (postQuery (FetchFail cause)) st),
      (catch_message (Error (js "Network error " ++ [en_dash]
                      ++ js " could not reach the backend. "
                      ++ js "Is it deployed and running? ("
                      ++ cause ++ js ")"))).
    rewrite (suspended_FetchRejects _ _ _ _ HP), decide_True by reflexivity.
    rewrite Hresp. split; [reflexivity|].
    split; [apply (render_settled (postQuery (FetchFail cause)) st Hres Herr);
            discriminate|].
    set (msg := js "Network error " ++ _).
    assert (Hmsg : catch_message (Error msg) = msg)
      by (unfold msg; reflexivity).
    rewrite Hmsg. split.
    + unfold ErrorCard. simpl. fold msg. unfold msg. reflexivity.
    + unfold msg. do 4 apply includes_app_r. apply includes_here.
Qed.

(** X7: no state is a dead end. From every reachable state, clearing,
    typing a non-blank query and asking starts a request for the trimmed
    query with no error and no result left; where nothing is pending,
    typing and asking is enough. *)
Theorem can_always_submit (st : App) (q : jsstring) :
  reachable st -> trim q <> [] ->
  (exists st', run [Clear; Input q; Ask] st = Some st' /\
     lifecycle st' = Pending /\ query st' = q /\
     error st' = None /\ result st' = JNull /\
     exists r, pending st' = [r] /\ req_query r = trim q /\
               req_response r = None /\ abortRef st' = Some (req_ctrl r)) /\
  (loading st = false ->
   exists st', run [Input q; Ask] st = Some st' /\
     lifecycle st' = Pending /\ query st' = q /\
     exists r, pending st' = [r] /\ req_query r = trim q).
Proof.
  intros Hr Hq.
  assert (Hgo : forall s, reachable s -> loading s = false ->
            run [Input q; Ask] s = Some (accepted (setQuery q s))).
  { intros s Hs Hl. pose proof (reachable_Inv s Hs) as HI.
    pose proof HI as (_ & _ & H). rewrite Hl in H.
    change (run [Input q; Ask] s)
      with (step (Input q) s ≫= fun s1 => step Ask s1 ≫= fun s2 => Some s2).
    rewrite (settled_Input _ Hl H). cbn [mbind option_bind].
    rewrite step_Ask_accept; [reflexivity| |exact Hl|exact Hq].
    apply Inv_setQuery, HI. }
  split.
  - destruct (step Clear st) as [s|] eqn:Hc.
    + assert (Hs : reachable s) by (eapply reachable_step; eassumption).
      assert (Hl : loading s = false).
      { pose proof (reachable_Inv st Hr) as (_ & _ & H).
        destruct (loading st) eqn:Hl0.
        - destruct H as (r & t0 & lc & HP).
          rewrite (suspended_Clear _ _ _ _ HP) in Hc. injection Hc as <-.
          reflexivity.
        - rewrite (settled_Clear _ H) in Hc. injection Hc as <-. reflexivity. }
      exists (accepted (setQuery q s)).
      change (run [Clear; Input q; Ask] st)
        with (step Clear st ≫= run [Input q; Ask]).
      rewrite Hc. simpl mbind. split; [exact (Hgo s Hs Hl)|].
      repeat split. eexists. repeat split.
    + exfalso. pose proof (reachable_Inv st Hr) as (_ & _ & H).
      destruct (loading st) eqn:Hl0.
      * destruct H as (r & t0 & lc & HP).
        rewrite (suspended_Clear _ _ _ _ HP) in Hc. discriminate.
      * rewrite (settled_Clear _ H) in Hc. discriminate.
  - intros Hl. exists (accepted (setQuery q st)).
    split; [exact (Hgo st Hr Hl)|]. repeat split. eexists. repeat split.
Qed.

Lemma interrupted_message_spec (r : Request) (resp : Response) :
  req_response r = Some resp ->
  postQuery (aborted_result r) = Throw (Error (interrupted_message resp)) /\
  catch_message (Error (interrupted_message resp)) = interrupted_message resp /\
  interrupted_message resp <> ABORT_MESSAGE.
Proof.
  intros Hresp. unfold aborted_result, interrupted_message. rewrite Hresp.
  unfold postQuery. cbv zeta.
  change (default JNull (json {| json := None; text := None |})) with JNull.
  change (default [] (text {| json := None; text := None |}))
    with ([] : jsstring).
  rewrite !check_response_null.
  destruct (ok resp) eqn:Hok; simpl negb; cbv iota.
  - destruct (includes _ _); (split; [reflexivity|]);
      (split; [reflexivity|vm_compute; discriminate]).
  - destruct (includes _ _); (split; [reflexivity|]);
      (split; [reflexivity|discriminate]).
Qed.

(** X9: once the response has arrived and its body is being read, a clear
    or the timeout no longer ends with the time-out message: the cut-off
    read is taken for an empty body (2xx) or reported with the status line
    (otherwise). *)
Theorem interrupted_body_read (st : App) (r : Request) (resp : Response) :
  reachable st -> pending st = [r] -> req_response r = Some resp ->
  interrupted_message resp <> ABORT_MESSAGE /\
  (ok resp = true -> interrupted_message resp = EMPTY_BODY) /\
  (exists st', step Clear st = Some st' /\
               lifecycle st' = Failed (interrupted_message resp)) /\
  (forall id t, timers st !! id = Some t -> now st = deadline t ->
   exists st', step (TimeoutFires id) st = Some st' /\
               lifecycle st' = Failed (interrupted_message resp)).
Proof.
  intros Hr Hp Hresp. pose proof (reachable_Inv st Hr) as HI.
  destruct (pending_loading st r HI Hp) as (Hl & t0 & lc & HP).
  destruct (interrupted_message_spec r resp Hresp) as (Hthrow & Hcatch & Hne).
  split; [exact Hne|]. split; [|split].
  - intros Hok. unfold interrupted_message. rewrite Hok. reflexivity.
  - eexists. rewrite (suspended_Clear _ _ _ _ HP), Hthrow.
    split; [reflexivity|]. rewrite lifecycle_settled_throw, Hcatch.
    reflexivity.
  - intros id t Ht Hnow. rewrite (pi_timers _ _ _ _ HP) in Ht.
    apply lookup_singleton_Some in Ht as [<- <-]. simpl in Hnow.
    eexists. rewrite (suspended_TimeoutFires _ _ _ _ HP).
    rewrite decide_True by reflexivity.
    rewrite bool_decide_eq_true_2 by lia. rewrite Hthrow.
    split; [reflexivity|]. rewrite lifecycle_settled_throw, Hcatch.
    reflexivity.
Qed.

Lemma examples_trimmed :
  forallb (fun q => jsstring_eqb (trim (full q)) (full q)
                    && negb (jsstring_eqb (full q) []))
          EXAMPLE_QUERIES = true.
Proof. vm_compute. reflexivity. Qed.

(** X11: an example pill or card, clicked while nothing is pending, wipes
    the result and the error, leaves the welcome view with the example in
    the text area and the Ask button enabled; asking then sends exactly
    that example. *)
Theorem example_then_ask (st : App) (q : ExampleQuery) :
  reachable st -> loading st = false -> q ∈ EXAMPLE_QUERIES ->
  exists st1 st2,
    step (Example (full q)) st = Some st1 /\
    lifecycle st1 = Idle /\ render st1 = [WelcomeView] /\
    query st1 = full q /\ ask_disabled st1 = false /\
    step Ask st1 = Some st2 /\ lifecycle st2 = Pending /\
    exists r, pending st2 = [r] /\ req_query r = full q.
Proof.
  intros Hr Hl Hin. pose proof (reachable_Inv st Hr) as HI.
  pose proof HI as (Hb & He & H). rewrite Hl in H.
  pose proof examples_trimmed as Hall.
  rewrite forallb_forall in Hall. apply list_elem_of_In in Hin.
  specialize (Hall q Hin). apply andb_true_iff in Hall as [Ht Hne].
  apply jsstring_eqb_eq in Ht. apply negb_true_iff, jsstring_eqb_neq in Hne.
  assert (Hr1 : reachable (fillExample (full q) st)).
  { eapply reachable_step; [exact Hr|]. apply (settled_Example _ Hl H). }
  assert (Hq : trim (query (fillExample (full q) st)) <> [])
    by (simpl; rewrite Ht; exact Hne).
  exists (fillExample (full q) st), (accepted (fillExample (full q) st)).
  split; [apply (settled_Example _ Hl H)|].
  split; [unfold lifecycle; simpl; rewrite Hl; reflexivity|].
  split; [unfold render; simpl; rewrite Hl; reflexivity|].
  split; [reflexivity|]. split.
  { unfold ask_disabled. simpl. rewrite Hl, Ht.
    apply jsstring_eqb_neq in Hne. rewrite Hne. reflexivity. }
  split; [apply step_Ask_accept;
          [apply reachable_Inv, Hr1|exact Hl|exact Hq]|].
  split; [reflexivity|]. eexists. split; [reflexivity|]. simpl. exact Ht.
Qed.

(** *** Trimming *)

Lemma trimStart_head (s t : jsstring) (c : N) :
  trimStart s = c :: t -> is_whitespace c = false.
Proof.
  induction s as [|a s IH]; simpl; [discriminate|].
  destruct (is_whitespace a) eqn:Ha; [exact IH|].
  intros [= <- _]. exact Ha.
Qed.

Lemma trimStart_idem (s : jsstring) : trimStart (trimStart s) = trimStart s.
Proof.
  destruct (trimStart s) as [|c t] eqn:E; [reflexivity|].
  simpl. rewrite (trimStart_head s t c E). reflexivity.
Qed.

Lemma trimStart_suffix (s : jsstring) : exists w, s = w ++ trimStart s.
Proof.
  induction s as [|a s [w IH]]; simpl; [exists []; reflexivity|].
  destruct (is_whitespace a).
  - exists (a :: w). simpl. rewrite <- IH. reflexivity.
  - exists []. reflexivity.
Qed.

(** A trimmed string has no white space left at either end. *)
Lemma trim_idem (s : jsstring) : trim (trim s) = trim s.
Proof.
  assert (Hend : trimEnd (trim s) = trim s).
  { unfold trim, trimEnd. rewrite rev_involutive, trimStart_idem.
    reflexivity. }
  assert (Hstart : trimStart (trim s) = trim s).
  { unfold trim, trimEnd.
    destruct (trimStart_suffix (rev (trimStart s))) as [w Hw].
    apply (f_equal (@rev N)) in Hw.
    rewrite rev_involutive, rev_app_distr in Hw.
    destruct (rev (trimStart (rev (trimStart s)))) as [|c u]; [reflexivity|].
    simpl in Hw. simpl.
    rewrite (trimStart_head s _ c Hw). reflexivity. }
  unfold trim at 1. rewrite Hstart. exact Hend.
Qed.

(** *** The page as rendered *)

Lemma ui_reachable_reachable (st : App) : ui_reachable st -> reachable st.
Proof.
  induction 1 as [|e st st' _ IH _ Hstep]; [apply reachable_init|].
  exact (reachable_step e st st' IH Hstep).
Qed.

Lemma ui_run_reachable (es : list Event) (st st' : App) :
  ui_reachable st -> ui_run es st = Some st' -> ui_reachable st'.
Proof.
  revert st. induction es as [|e es IH]; intros st Hr; simpl.
  - intros [= <-]. exact Hr.
  - destruct (ui_enabled e st) eqn:Hen; [|discriminate].
    destruct (step e st) as [st1|] eqn:He; simpl; [|discriminate].
    apply IH. exact (ui_reachable_step e st st1 Hr Hen He).
Qed.

Lemma ui_pending_query (st : App) :
  ui_reachable st -> loading st = true ->
  exists r, pending st = [r] /\ req_query r = trim (query st) /\
            trim (query st) <> [].
Proof.
  induction 1 as [|e st st' Hui IH Hen Hstep]; [discriminate|].
  intros Hl'. pose proof (reachable_Inv st (ui_reachable_reachable st Hui)) as HI.
  pose proof HI as (_ & _ & H).
  destruct (loading st) eqn:Hl.
  - destruct H as (r & t0 & lc & HP).
    destruct (IH eq_refl) as (r0 & Hp0 & Hq0 & Hne0).
    pose proof (pi_pending _ _ _ _ HP) as Hp. rewrite Hp0 in Hp.
    injection Hp as ->.
    destruct e as [v|v| | |c resp|c m|c b|dt|id];
      try (unfold ui_enabled, ask_disabled, input_disabled in Hen;
           rewrite Hl in Hen; discriminate Hen).
    + rewrite (suspended_Clear _ _ _ _ HP) in Hstep. injection Hstep as <-.
      discriminate Hl'.
    + rewrite (suspended_FetchResolves _ _ _ _ Hl HP) in Hstep.
      destruct (decide _); [|discriminate].
      destruct (req_response r); [discriminate|]. injection Hstep as <-.
      exists (with_response resp r). repeat split; assumption.
    + rewrite (suspended_FetchRejects _ _ _ _ HP) in Hstep.
      destruct (decide _); [|discriminate].
      destruct (req_response r); [discriminate|]. injection Hstep as <-.
      discriminate Hl'.
    + rewrite (suspended_BodyArrives _ _ _ _ HP) in Hstep.
      destruct (decide _); [|discriminate].
      destruct (req_response r); [|discriminate]. injection Hstep as <-.
      discriminate Hl'.
    + rewrite (suspended_Elapse _ _ _ _ Hl HP) in Hstep.
      destruct (_ && _); [|discriminate]. injection Hstep as <-.
      exists r. repeat split; assumption.
    + rewrite (suspended_TimeoutFires _ _ _ _ HP) in Hstep.
      destruct (decide _); [|discriminate].
      destruct (bool_decide _); [|discriminate]. injection Hstep as <-.
      discriminate Hl'.
  - destruct e as [v|v| | |c resp|c m|c b|dt|id].
    + rewrite (settled_Input _ Hl H) in Hstep. injection Hstep as <-.
      simpl in Hl'. congruence.
    + rewrite (settled_Example _ Hl H) in Hstep. injection Hstep as <-.
      simpl in Hl'. congruence.
    + destruct (jsstring_eqb (trim (query st)) []) eqn:Hq.
      * rewrite step_Ask_noop in Hstep by (auto; rewrite Hq; reflexivity).
        injection Hstep as <-. congruence.
      * apply jsstring_eqb_neq in Hq.
        rewrite step_Ask_accept in Hstep by assumption.
        injection Hstep as <-. eexists. split; [reflexivity|].
        split; [reflexivity|exact Hq].
    + rewrite (settled_Clear _ H) in Hstep. injection Hstep as <-.
      discriminate Hl'.
    + pose proof (settled_network _ H (FetchResolves c resp)) as Hn.
      simpl in Hn. congruence.
    + pose proof (settled_network _ H (FetchRejects c m)) as Hn.
      simpl in Hn. congruence.
    + pose proof (settled_network _ H (BodyArrives c b)) as Hn.
      simpl in Hn. congruence.
    + rewrite (settled_Elapse _ Hl H) in Hstep.
      destruct (bool_decide _); [|discriminate]. injection Hstep as <-.
      simpl in Hl'. congruence.
    + pose proof (settled_network _ H (TimeoutFires id)) as Hn.
      simpl in Hn. congruence.
Qed.

(** X6: on the page as it is rendered (the text area and the pills
    disabled while loading, Clear present only when there is something to
    clear), a pending request always carries the trimmed content of the
    text area, which is not blank and has no white space left at its ends;
    the text area and the Ask button are disabled and the Clear button is
    there to cancel. At any time the Ask button is disabled exactly when
    [handleSubmit] would ignore the call. *)
Theorem page_while_pending (st : App) :
  ui_reachable st ->
  (loading st = true ->
   exists r, pending st = [r] /\ req_query r = trim (query st) /\
     req_query r <> [] /\ trim (req_query r) = req_query r /\
     input_disabled st = true /\ ask_disabled st = true /\
     clear_rendered st = true) /\
  (ask_disabled st = true -> step Ask st = Some st) /\
  (ask_disabled st = false ->
   exists st', step Ask st = Some st' /\ lifecycle st' = Pending /\
               exists r, pending st' = [r] /\ req_query r = trim (query st)).
Proof.
  intros Hui. pose proof (ui_reachable_reachable st Hui) as Hr.
  pose proof (reachable_Inv st Hr) as HI.
  split; [|split].
  - intros Hl. destruct (ui_pending_query st Hui Hl) as (r & Hp & Hq & Hne).
    exists r. split; [exact Hp|]. split; [exact Hq|].
    split; [rewrite Hq; exact Hne|]. split; [rewrite Hq; apply trim_idem|].
    split; [exact Hl|]. split; [unfold ask_disabled; rewrite Hl; reflexivity|].
    unfold clear_rendered.
    destruct (query st) as [|c q] eqn:Eq; [exfalso; apply Hne; reflexivity|].
    reflexivity.
  - intros Hd. apply step_Ask_noop; [exact HI|].
    unfold ask_disabled in Hd. rewrite orb_comm. exact Hd.
  - intros Hd. unfold ask_disabled in Hd.
    apply orb_false_iff in Hd as [Hl Hq]. apply jsstring_eqb_neq in Hq.
    exists (accepted st). split; [apply step_Ask_accept; assumption|].
    split; [reflexivity|]. eexists. split; reflexivity.
Qed.

(** *** The controllers *)

Lemma step_handles (e : Event) (st st' : App) :
  Inv st -> step e st = Some st' ->
  (controllers st' = controllers st /\ abortRef st' = abortRef st) \/
  (controllers st' = controllers (abort_current st) /\
   abortRef st' = abortRef st) \/
  (controllers st' = controllers (abort_current st) ++ [false] /\
   abortRef st' = Some (length (controllers st))).
Proof.
  intros HI Hstep. pose proof HI as (_ & _ & H).
  destruct (loading st) eqn:Hl.
  - destruct H as (r & t0 & lc & HP).
    destruct e as [v|v| | |c resp|c m|c b|dt|id].
    + rewrite (suspended_Input _ _ _ _ Hl HP) in Hstep. injection Hstep as <-.
      left. split; reflexivity.
    + rewrite (suspended_Example _ _ _ _ Hl HP) in Hstep. injection Hstep as <-.
      left. split; reflexivity.
    + rewrite step_Ask_noop in Hstep by (auto; rewrite Hl; apply orb_true_r).
      injection Hstep as <-. left. split; reflexivity.
    + rewrite (suspended_Clear _ _ _ _ HP) in Hstep. injection Hstep as <-.
      right. left. unfold handleClear, abort_current.
      destruct (abortRef st) eqn:E; simpl; rewrite ?E; split; reflexivity.
    + rewrite (suspended_FetchResolves _ _ _ _ Hl HP) in Hstep.
      destruct (decide _); [|discriminate].
      destruct (req_response r); [discriminate|]. injection Hstep as <-.
      left. split; reflexivity.
    + rewrite (suspended_FetchRejects _ _ _ _ HP) in Hstep.
      destruct (decide _); [|discriminate].
      destruct (req_response r); [discriminate|]. injection Hstep as <-.
      left. split; reflexivity.
    + rewrite (suspended_BodyArrives _ _ _ _ HP) in Hstep.
      destruct (decide _); [|discriminate].
      destruct (req_response r); [|discriminate]. injection Hstep as <-.
      left. split; reflexivity.
    + rewrite (suspended_Elapse _ _ _ _ Hl HP) in Hstep.
      destruct (_ && _); [|discriminate]. injection Hstep as <-.
      left. split; reflexivity.
    + rewrite (suspended_TimeoutFires _ _ _ _ HP) in Hstep.
      destruct (decide _); [|discriminate].
      destruct (bool_decide _); [|discriminate]. injection Hstep as <-.
      right. left. unfold abort_current. rewrite (pi_ref _ _ _ _ HP).
      split; [reflexivity|]. simpl. exact (pi_ref _ _ _ _ HP).
  - destruct e as [v|v| | |c resp|c m|c b|dt|id].
    + rewrite (settled_Input _ Hl H) in Hstep. injection Hstep as <-.
      left. split; reflexivity.
    + rewrite (settled_Example _ Hl H) in Hstep. injection Hstep as <-.
      left. split; reflexivity.
    + destruct (jsstring_eqb (trim (query st)) []) eqn:Hq.
      * rewrite step_Ask_noop in Hstep by (auto; rewrite Hq; reflexivity).
        injection Hstep as <-. left. split; reflexivity.
      * apply jsstring_eqb_neq in Hq.
        rewrite step_Ask_accept in Hstep by assumption.
        injection Hstep as <-. right. right. split; reflexivity.
    + rewrite (settled_Clear _ H) in Hstep. injection Hstep as <-.
      right. left. unfold handleClear, abort_current.
      destruct (abortRef st) eqn:E; simpl; rewrite ?E; split; reflexivity.
    + pose proof (settled_network _ H (FetchResolves c resp)) as Hn.
      simpl in Hn. congruence.
    + pose proof (settled_network _ H (FetchRejects c m)) as Hn.
      simpl in Hn. congruence.
    + pose proof (settled_network _ H (BodyArrives c b)) as Hn.
      simpl in Hn. congruence.
    + rewrite (settled_Elapse _ Hl H) in Hstep.
      destruct (bool_decide _); [|discriminate]. injection Hstep as <-.
      left. split; reflexivity.
    + pose proof (settled_network _ H (TimeoutFires id)) as Hn.
      simpl in Hn. congruence.
Qed.

Lemma handles_inv_abort_current (st : App) :
  handles_inv st ->
  (forall c b, controllers (abort_current st) !! c = Some b ->
               abortRef st <> Some c -> b = true) /\
  (forall c b, controllers (abort_current st) !! c = Some b -> b = true) /\
  length (controllers (abort_current st)) = length (controllers st).
Proof.
  intros [Hall Hcur]. unfold abort_current, abort.
  destruct (abortRef st) as [c0|] eqn:Hr; simpl.
  - split; [|split].
    + intros c b Hc Hne. rewrite list_lookup_insert_ne in Hc by congruence.
      exact (Hall c b Hc Hne).
    + intros c b Hc. destruct (decide (c0 = c)) as [->|Hne].
      * rewrite list_lookup_insert_eq in Hc by lia. congruence.
      * rewrite list_lookup_insert_ne in Hc by exact Hne.
        apply (Hall c b Hc). congruence.
    + apply length_insert.
  - rewrite Hcur. split; [|split]; try reflexivity;
      intros c b Hc; destruct c; discriminate Hc.
Qed.

Lemma reachable_handles (st : App) : reachable st -> handles_inv st.
Proof.
  induction 1 as [|e st st' Hr IH Hstep].
  - split; [|reflexivity]. intros c b Hc. destruct c; discriminate Hc.
  - destruct (handles_inv_abort_current st IH) as (Hothers & Hall & Hlen).
    destruct (step_handles e st st' (reachable_Inv st Hr) Hstep)
      as [[Hc Ha]|[[Hc Ha]|[Hc Ha]]]; unfold handles_inv; rewrite Hc, Ha.
    + exact IH.
    + split; [exact Hothers|]. destruct IH as [_ Hcur].
      destruct (abortRef st) eqn:E; [rewrite Hlen; exact Hcur|].
      unfold abort_current. rewrite E. exact Hcur.
    + split.
      * intros c b Hlook Hne.
        destruct (decide (c < length (controllers st))%nat) as [Hlt|Hge].
        -- rewrite lookup_app_l in Hlook by lia. exact (Hall c b Hlook).
        -- exfalso. apply lookup_lt_Some in Hlook.
           rewrite length_app, Hlen in Hlook. simpl in Hlook.
           apply Hne. f_equal. lia.
      * rewrite length_app, Hlen. simpl. lia.
Qed.

Lemma filter_unaborted_nil (l : list bool) :
  Forall (fun b => b = true) l -> filter (fun b => b = false) l = [].
Proof.
  induction 1 as [|b l Hb _ IH]; [reflexivity|].
  rewrite filter_cons_False by congruence. exact IH.
Qed.

(** X8: superseded controllers are always aborted. In every reachable state
    [abortRef] holds the controller created last (and none before the
    first submit), and every other controller has been aborted, so at most
    one controller is ever left un-aborted. *)
Theorem superseded_handles_aborted (st : App) :
  reachable st ->
  (forall c, abortRef st = Some c -> S c = length (controllers st)) /\
  (abortRef st = None -> controllers st = []) /\
  (forall c, (c < length (controllers st))%nat -> abortRef st <> Some c ->
             is_aborted st c = true) /\
  (length (filter (fun b => b = false) (controllers st)) <= 1)%nat.
Proof.
  intros Hr. destruct (reachable_handles st Hr) as [Hall Hcur].
  assert (H3 : forall c, (c < length (controllers st))%nat ->
                 abortRef st <> Some c -> is_aborted st c = true).
  { intros c Hlt Hne. unfold is_aborted.
    destruct (lookup_lt_is_Some_2 _ _ Hlt) as [b Hb].
    rewrite Hb, (Hall c b Hb Hne). reflexivity. }
  split; [|split; [|split]].
  - intros c Hc. rewrite Hc in Hcur. exact Hcur.
  - intros Hn. rewrite Hn in Hcur. exact Hcur.
  - exact H3.
  - destruct (abortRef st) as [c0|] eqn:Href; [|rewrite Hcur; simpl; lia].
    rewrite <- (take_drop c0 (controllers st)), filter_app, length_app.
    rewrite filter_unaborted_nil.
    + pose proof (length_filter (fun b => b = false)
                    (drop c0 (controllers st))) as Hle.
      rewrite length_drop in Hle. simpl. lia.
    + apply Forall_lookup. intros i b Hi.
      assert (Hlt : (i < c0)%nat).
      { apply lookup_lt_Some in Hi. rewrite length_take in Hi. lia. }
      rewrite lookup_take_lt in Hi by exact Hlt.
      apply (Hall i b Hi). intros [= ->]. lia.
Qed.

(* ===================================================================== *)
(** ** LoadingCard.jsx: the badges rendered *)
(* ===================================================================== *)

Lemma badges_from (steps : list Step) (a k : nat) :
  let l := omap id (imap (fun i => step_badge a (k + i)) steps) in
  ((a < k)%nat -> l = []) /\
  ((k <= a)%nat -> (a < k + length steps)%nat ->
   map badge_class l = replicate (a - k) BadgeDone ++ [BadgeActive] /\
   map badge_key l = map step_id (take (S (a - k)) steps)) /\
  ((k + length steps <= a)%nat ->
   map badge_class l = replicate (length steps) BadgeDone).
Proof.
  revert k. induction steps as [|s steps IH]; intros k; cbv zeta.
  - simpl. split; [reflexivity|]. split; [lia|reflexivity].
  - rewrite imap_cons.
    assert (Hext : imap ((fun i => step_badge a (k + i)) ∘ S) steps
                   = imap (fun i => step_badge a (S k + i)) steps).
    { apply imap_ext. intros i x _. simpl. f_equal. lia. }
    rewrite Hext. specialize (IH (S k)). cbv zeta in IH.
    set (tl := omap id (imap (fun i => step_badge a (S k + i)) steps)) in *.
    destruct IH as (IH1 & IH2 & IH3).
    assert (Hcons : omap id (step_badge a (k + 0) s
                             :: imap (fun i => step_badge a (S k + i)) steps)
                    = match step_badge a k s with
                      | Some b => b :: tl
                      | None => tl
                      end).
    { rewrite Nat.add_0_r. reflexivity. }
    rewrite Hcons. clear Hcons. unfold step_badge. cbv zeta.
    change (length (s :: steps)) with (S (length steps)).
    destruct (Nat.ltb_spec k a) as [Hlt|Hge];
      destruct (Nat.eqb_spec k a) as [Heq|Hne]; cbn [negb andb]; try lia.
    + (* k < a : done *)
      split; [lia|]. split.
      * intros _ Hb. destruct (IH2 ltac:(lia) ltac:(lia)) as [Hc Hk].
        cbn [map badge_class badge_key]. rewrite Hc, Hk.
        replace (a - k)%nat with (S (a - S k)) by lia. split; reflexivity.
      * intros Hb. cbn [map badge_class]. rewrite IH3 by lia. reflexivity.
    + (* k = a : active *)
      subst a. split; [lia|]. split; [|lia].
      intros _ _. rewrite IH1 by lia. rewrite Nat.sub_diag. split; reflexivity.
    + (* a < k : hidden *)
      split; [intros _; apply IH1; lia|]. split; lia.
Qed.

(** X5: for an index within the steps the loading card shows the badges
    of the steps up to it, in order, every earlier one marked done and the
    last one active, so exactly one badge is active; for an index beyond
    the steps every badge would be done and none active. In every
    reachable pending state the index is within the steps. *)
Theorem loading_badges (st : App) (a : nat) :
  ((a < length STEPS)%nat ->
   map badge_class (loading_steps a) = replicate a BadgeDone ++ [BadgeActive] /\
   map badge_key (loading_steps a) = map step_id (take (S a) STEPS) /\
   length (loading_steps a) = S a) /\
  ((length STEPS <= a)%nat ->
   map badge_class (loading_steps a) = replicate (length STEPS) BadgeDone) /\
  (reachable st -> loading st = true ->
   exists lc, card st = Some lc /\ (active lc < length STEPS)%nat /\
     map badge_class (loading_steps (active lc))
     = replicate (active lc) BadgeDone ++ [BadgeActive]).
Proof.
  pose proof (badges_from STEPS a 0) as Hb. cbv zeta in Hb.
  change (omap id (imap (fun i => step_badge a (0 + i)) STEPS))
    with (loading_steps a) in Hb.
  destruct Hb as (_ & Hin & Hout).
  assert (Hfirst : (a < length STEPS)%nat ->
    map badge_class (loading_steps a) = replicate a BadgeDone ++ [BadgeActive] /\
    map badge_key (loading_steps a) = map step_id (take (S a) STEPS) /\
    length (loading_steps a) = S a).
  { intros Ha. destruct (Hin ltac:(lia) ltac:(lia)) as [Hc Hk].
    rewrite Nat.sub_0_r in Hc, Hk. split; [exact Hc|]. split; [exact Hk|].
    rewrite <- (length_map badge_class), Hc, length_app, length_replicate.
    simpl. lia. }
  split; [exact Hfirst|]. split; [intros Ha; apply Hout; lia|].
  intros Hr Hl. pose proof (reachable_Inv st Hr) as (_ & _ & H).
  rewrite Hl in H. destruct H as (r & t0 & lc & HP).
  exists lc. split; [exact (pi_card _ _ _ _ HP)|].
  assert (Hlt : (active lc < length STEPS)%nat)
    by (rewrite (pi_active _ _ _ _ HP); simpl; lia).
  split; [exact Hlt|].
  pose proof (badges_from STEPS (active lc) 0) as Hb'. cbv zeta in Hb'.
  destruct Hb' as (_ & Hin' & _).
  destruct (Hin' ltac:(lia) ltac:(lia)) as [Hc _].
  rewrite Nat.sub_0_r in Hc. exact Hc.
Qed.

(* ===================================================================== *)
(** ** RecordsTable.jsx: the status pill *)
(* ===================================================================== *)

(** X10: for a status that is a string or falsy the pill of a row carries
    exactly one mark, the one of its class: the check mark with [passed],
    the cross with [failed], the hourglass with [pending]. For any other
    status (a non-zero number, [true], an array, an object) the call of
    [toLowerCase] throws and the row cannot be rendered. *)
Theorem status_pill_one_mark (v : JsValue) :
  (truthy v = false \/ (exists s, v = JStr s) ->
   exists c mark,
     status_pill v = Normal (js "status-pill " ++ c, [mark]) /\
     statusClass v = Normal c /\
     ((c = js "passed" /\ mark = [10003; 32]) \/
      (c = js "failed" /\ mark = [10005; 32]) \/
      (c = js "pending" /\ mark = [9203; 32]))) /\
  (truthy v = true -> (forall s, v <> JStr s) -> status_pill v = TypeError).
Proof.
  split.
  - intros Hv.
    assert (Hlow : exists s, call_toLowerCase (js_or v (JStr [])) = Normal s).
    { destruct Hv as [Hf|[s ->]].
      - unfold js_or. rewrite Hf. eexists. reflexivity.
      - unfold js_or. destruct (truthy (JStr s)); eexists; reflexivity. }
    destruct Hlow as [s Hs]. unfold status_pill, statusClass. rewrite Hs.
    destruct (jsstring_eqb s (js "passed")); [|
      destruct (jsstring_eqb s (js "failed"))];
      eexists; eexists; (split; [reflexivity|]); (split; [reflexivity|]);
      auto.
  - intros Ht Hns. unfold status_pill, statusClass, js_or. rewrite Ht.
    destruct v; simpl in *; try discriminate; try reflexivity.
    exfalso. eapply Hns. reflexivity.
Qed.

(* ===================================================================== *)
(** ** AnswerCard.jsx: the copy button *)
(* ===================================================================== *)

Lemma copy_step_inv (e : CopyEvent) (c c' : AnswerCard) :
  copy_inv c -> copy_step e c = Some c' -> copy_inv c'.
Proof.
  intros [Hc Hall] Hstep. unfold COPIED_MS in *.
  destruct e as [| |dt|i]; simpl in Hstep.
  - injection Hstep as <-. split; simpl.
    + intros _ H. apply app_eq_nil in H as [_ H]. discriminate.
    + apply Forall_app. split; [exact Hall|].
      constructor; [unfold COPIED_MS; lia|constructor].
  - injection Hstep as <-. split; assumption.
  - destruct (bool_decide (0 <= dt)%Z) eqn:H0; [|discriminate].
    destruct (forallb _ _) eqn:Hf; [|discriminate].
    injection Hstep as <-. apply bool_decide_eq_true in H0.
    rewrite forallb_forall in Hf. split; simpl; [exact Hc|].
    apply Forall_forall. intros d Hd.
    rewrite Forall_forall in Hall. specialize (Hall d Hd).
    apply list_elem_of_In in Hd. specialize (Hf d Hd).
    apply bool_decide_eq_true in Hf. unfold COPIED_MS. lia.
  - destruct (copy_timers c !! i) as [d|]; [|discriminate].
    destruct (bool_decide _); [|discriminate]. injection Hstep as <-.
    split; simpl; [discriminate|]. apply Forall_delete. exact Hall.
Qed.

Lemma copy_reachable_inv (t : Z) (c : AnswerCard) :
  copy_reachable t c -> copy_inv c.
Proof.
  induction 1 as [|e c c' _ IH Hstep].
  - split; [discriminate|constructor].
  - exact (copy_step_inv e c c' IH Hstep).
Qed.

(** X12: the Copied label never sticks. Whenever the button says Copied a
    timeout is armed that is due within 2000 ms; time cannot pass it, and
    when it fires the label is back to Copy, also when the answer was
    copied again in between. *)
Theorem copied_reverts (t : Z) (c : AnswerCard) :
  copy_reachable t c -> copied c = true ->
  exists d rest,
    copy_timers c = d :: rest /\
    (copy_now c <= d <= copy_now c + COPIED_MS)%Z /\
    (forall dt, (d < copy_now c + dt)%Z -> copy_step (CopyElapse dt) c = None) /\
    (copy_now c = d ->
     exists c', copy_step (CopyTimerFires 0) c = Some c' /\
                copied c' = false /\ copy_label c' = ([10697] ++ js " Copy") /\
                copy_timers c' = rest).
Proof.
  intros Hr Hc. destruct (copy_reachable_inv t c Hr) as [Hne Hall].
  destruct (copy_timers c) as [|d rest] eqn:Ht; [exfalso; apply (Hne Hc); reflexivity|].
  exists d, rest. split; [reflexivity|].
  split; [inversion Hall; assumption|]. split.
  - intros dt Hdt. simpl. rewrite Ht. simpl.
    rewrite (bool_decide_eq_false_2 (copy_now c + dt <= d)%Z) by lia.
    rewrite andb_false_r. reflexivity.
  - intros Hnow. eexists. simpl. rewrite Ht. simpl.
    rewrite bool_decide_eq_true_2 by lia.
    split; [reflexivity|]. repeat split.
Qed.

Lemma copy_run_reachable (t : Z) (es : list CopyEvent) (c c' : AnswerCard) :
  copy_reachable t c -> copy_run es c = Some c' -> copy_reachable t c'.
Proof.
  revert c. induction es as [|e es IH]; intros c Hr; simpl.
  - intros [= <-]. exact Hr.
  - destruct (copy_step e c) as [c1|] eqn:He; simpl; [|discriminate].
    apply IH. exact (copy_reachable_step t e c c1 Hr He).
Qed.

(* ===================================================================== *)
(** ** App.jsx: the transitions of the lifecycle *)
(* ===================================================================== *)

Lemma lifecycle_settled_return (v : JsValue) (st : App) :
  error st = None -> truthy v = true ->
  lifecycle (settled (Return v) st) = Succeeded v.
Proof.
  intros He Hv. unfold lifecycle. simpl. rewrite He, Hv. reflexivity.
Qed.

Lemma lifecycle_pending (st : App) :
  lifecycle st = Pending <-> loading st = true.
Proof.
  unfold lifecycle. destruct (loading st); [tauto|].
  split; [|discriminate].
  destruct (error st) as [m|]; [destruct (jsstring_eqb m [])|];
    try destruct (truthy (result st)); discriminate.
Qed.

(** X13: the transitions the code makes. While a request is pending,
    typing, an example, a submit, the arrival of the response and the
    passing of time leave it pending; a clear, the timeout and a network
    failure end it Failed; the arrival of the body ends it Succeeded or
    Failed. While nothing is pending, typing and time change nothing that
    is shown, an example or a clear leads to Idle (also from Succeeded and
    Failed), a submit changes nothing when the query is blank and starts a
    request otherwise, and no response or timeout can occur. *)
Theorem lifecycle_transitions (e : Event) (st st' : App) :
  reachable st -> step e st = Some st' ->
  (loading st = true ->
   match e with
   | Input _ | Example _ | Ask | FetchResolves _ _ | Elapse _ =>
       lifecycle st' = Pending
   | Clear | TimeoutFires _ | FetchRejects _ _ =>
       exists m, lifecycle st' = Failed m
   | BodyArrives _ _ =>
       (exists v, lifecycle st' = Succeeded v /\ truthy v = true) \/
       (exists m, lifecycle st' = Failed m)
   end) /\
  (loading st = false ->
   match e with
   | Input _ | Elapse _ =>
       lifecycle st' = lifecycle st /\ render st' = render st
   | Example _ | Clear => lifecycle st' = Idle
   | Ask =>
       (trim (query st) = [] /\ st' = st) \/
       (trim (query st) <> [] /\ lifecycle st' = Pending)
   | FetchResolves _ _ | FetchRejects _ _ | BodyArrives _ _
   | TimeoutFires _ => False
   end).
Proof.
  intros Hr Hstep. pose proof (reachable_Inv st Hr) as HI.
  pose proof HI as (_ & _ & H).
  split; intros Hl; rewrite Hl in H.
  - destruct H as (r & t0 & lc & HP).
    pose proof HP as [_ _ _ _ Hres Herr _ _ _ _].
    assert (Hkeep : loading st' = true -> lifecycle st' = Pending)
      by apply lifecycle_pending.
    destruct e as [v|v| | |c resp|c m|c b|dt|id].
    + rewrite (suspended_Input _ _ _ _ Hl HP) in Hstep. injection Hstep as <-.
      apply Hkeep. exact Hl.
    + rewrite (suspended_Example _ _ _ _ Hl HP) in Hstep. injection Hstep as <-.
      apply Hkeep. exact Hl.
    + rewrite step_Ask_noop in Hstep by (auto; rewrite Hl; apply orb_true_r).
      injection Hstep as <-. apply Hkeep. exact Hl.
    + rewrite (suspended_Clear _ _ _ _ HP) in Hstep. injection Hstep as <-.
      destruct (postQuery_aborted r) as (err & -> & _).
      eexists. apply lifecycle_settled_throw.
    + rewrite (suspended_FetchResolves _ _ _ _ Hl HP) in Hstep.
      destruct (decide _); [|discriminate].
      destruct (req_response r); [discriminate|]. injection Hstep as <-.
      apply Hkeep. exact Hl.
    + rewrite (suspended_FetchRejects _ _ _ _ HP) in Hstep.
      destruct (decide _); [|discriminate].
      destruct (req_response r); [discriminate|]. injection Hstep as <-.
      eexists. apply lifecycle_settled_throw.
    + rewrite (suspended_BodyArrives _ _ _ _ HP) in Hstep.
      destruct (decide _); [|discriminate].
      destruct (req_response r) as [resp|]; [|discriminate].
      clear Hkeep.
      remember (postQuery (FetchOk resp b)) as o eqn:Ho. symmetry in Ho.
      injection Hstep as <-. destruct o as [v|err].
      * left. exists v. pose proof (postQuery_return _ _ Ho) as Hv.
        split; [apply lifecycle_settled_return; assumption|exact Hv].
      * right. eexists. apply lifecycle_settled_throw.
    + rewrite (suspended_Elapse _ _ _ _ Hl HP) in Hstep.
      destruct (_ && _); [|discriminate]. injection Hstep as <-.
      apply Hkeep. exact Hl.
    + rewrite (suspended_TimeoutFires _ _ _ _ HP) in Hstep.
      destruct (decide _); [|discriminate].
      destruct (bool_decide _); [|discriminate]. injection Hstep as <-.
      destruct (postQuery_aborted r) as (err & -> & _).
      eexists. apply lifecycle_settled_throw.
  - destruct e as [v|v| | |c resp|c m|c b|dt|id].
    + rewrite (settled_Input _ Hl H) in Hstep. injection Hstep as <-.
      split; reflexivity.
    + rewrite (settled_Example _ Hl H) in Hstep. injection Hstep as <-.
      unfold lifecycle. simpl. rewrite Hl. reflexivity.
    + destruct (jsstring_eqb (trim (query st)) []) eqn:Hq.
      * rewrite step_Ask_noop in Hstep by (auto; rewrite Hq; reflexivity).
        injection Hstep as <-. left. apply jsstring_eqb_eq in Hq. auto.
      * apply jsstring_eqb_neq in Hq.
        rewrite step_Ask_accept in Hstep by assumption.
        injection Hstep as <-. right. split; [exact Hq|reflexivity].
    + rewrite (settled_Clear _ H) in Hstep. injection Hstep as <-.
      reflexivity.
    + pose proof (settled_network _ H (FetchResolves c resp)) as Hn.
      simpl in Hn. congruence.
    + pose proof (settled_network _ H (FetchRejects c m)) as Hn.
      simpl in Hn. congruence.
    + pose proof (settled_network _ H (BodyArrives c b)) as Hn.
      simpl in Hn. congruence.
    + rewrite (settled_Elapse _ Hl H) in Hstep.
      destruct (bool_decide _); [|discriminate]. injection Hstep as <-.
      split; reflexivity.
    + pose proof (settled_network _ H (TimeoutFires id)) as Hn.
      simpl in Hn. congruence.
Qed.

End Frontend.

(* ===================================================================== *)
(** ** Worked examples *)
(* ===================================================================== *)

(** C1, as stated, fails: a submit while the first request is pending
    leaves its controller un-aborted and creates no other. *)
Lemma submit_while_pending_keeps_handle :
  (fun st => (lifecycle st, abortRef st, controllers st, length (pending st)))
    <$> run example_numbers [Input (js "q"); Ask] init
  = Some (Pending, Some 0%nat, [false], 1%nat) /\
  (fun st => (lifecycle st, abortRef st, controllers st, length (pending st)))
    <$> run example_numbers [Input (js "q"); Ask; Ask] init
  = Some (Pending, Some 0%nat, [false], 1%nat).
Proof. split; vm_compute; reflexivity. Qed.

(** C7, as stated, fails: a clear while a request is pending ends in the
    Failed state, not in Idle. *)
Lemma clear_while_pending_ends_failed :
  lifecycle <$> run example_numbers [Input (js "q"); Ask] init = Some Pending /\
  lifecycle <$> run example_numbers [Input (js "q"); Ask; Clear] init
  = Some (Failed ABORT_MESSAGE) /\
  Failed ABORT_MESSAGE <> Idle.
Proof. split; [|split]; [vm_compute; reflexivity ..|discriminate]. Qed.

(** C9, as stated, fails: a 200 response with an HTML body is reported as an
    empty body; the message carries neither the status code nor any of the
    body. *)
Lemma html_success_reported_empty :
  let r := {| status := 200; statusText := js "OK";
              content_type := Some (js "text/html") |} in
  let b := {| json := None; text := Some (js "<html>maintenance</html>") |} in
  postQuery example_numbers (FetchOk r b) = Throw (Error EMPTY_BODY) /\
  includes EMPTY_BODY (decimal (status r)) = false /\
  includes EMPTY_BODY (slice0 200 (js "<html>maintenance</html>")) = false.
Proof. repeat split; vm_compute; reflexivity. Qed.

(** C3: the code departs from the claim when the response headers have
    arrived (200, JSON) and the body never does. The request is still
    pending at the deadline; the timeout fires and aborts the controller,
    [postQuery] swallows the rejected body read and throws the empty-body
    error, and the state is Failed with that message, not with the time-out
    message. No timeout stays armed and nothing stays suspended. With
    [fetch] itself still outstanding the same timeout gives the time-out
    message: there [postQuery] passes the AbortError on. *)
Lemma timeout_during_body_read :
  let resp := {| status := 200; statusText := js "OK";
                 content_type := Some (js "application/json") |} in
  let stalled := [Input (js "q"); Ask; FetchResolves 0 resp; Elapse 90000] in
  (fun st => (lifecycle st, now st, is_aborted st 0, length (pending st)))
    <$> run example_numbers stalled init
  = Some (Pending, 90000%Z, false, 1%nat) /\
  (fun st => (lifecycle st, is_aborted st 0, size (timers st), pending st))
    <$> run example_numbers (stalled ++ [TimeoutFires 1]) init
  = Some (Failed EMPTY_BODY, true, 0%nat, []) /\
  EMPTY_BODY <> ABORT_MESSAGE /\
  lifecycle <$> run example_numbers
                    [Input (js "q"); Ask; Elapse 90000; TimeoutFires 1] init
  = Some (Failed ABORT_MESSAGE).
Proof.
  repeat split; try (vm_compute; reflexivity). vm_compute. discriminate.
Qed.

(** An end-to-end run: the first example query answered with one chunk of
    similarity 0.91 and one record of compliance score 73. *)
Example end_to_end_scenario :
  let q := js "Show summary about contract with TransContinental Corp" in
  let data :=
    JObj [ (js "answer", JStr (js "**Summary**"));
           (js "retrieved_chunks",
            JArr [JObj [ (js "chunk_text", JStr (js "..."));
                         (js "similarity_score", JNum 0.91);
                         (js "contract_id", JNum 6);
                         (js "contract_type", JStr (js "NDA")) ]]);
           (js "structured_records",
            JArr [JObj [ (js "contract_id", JNum 6);
                         (js "compliance_score", JNum 73);
                         (js "audit_status", JStr (js "Pending")) ]]) ] in
  let resp := {| status := 200; statusText := js "OK";
                 content_type := Some (js "application/json") |} in
  lifecycle <$> run example_numbers
                    [Input q; Ask; Elapse 1200; FetchResolves 0 resp;
                     BodyArrives 0 {| json := Some data; text := None |}] init
  = Some (Succeeded data) /\
  band Similarity 0.91 = Some High /\ band Compliance 73 = Some Medium /\
  statusClass (JStr (js "Pending")) = Normal (js "pending").
Proof. repeat split; vm_compute; reflexivity. Qed.

Lemma one_view_witness :
  exists st, run example_numbers [Input (js "q"); Ask] init = Some st /\
             render st = [LoadingView].
Proof.
  eexists. split; [vm_compute; reflexivity|].
  refine (proj1 (one_view example_numbers _ _)).
  apply (run_reachable example_numbers [Input (js "q"); Ask] init);
    [apply reachable_init|vm_compute; reflexivity].
Defined.

Lemma submit_noop_witness :
  handleSubmit (setQuery (js "  ") init) = setQuery (js "  ") init /\
  step example_numbers Ask (setQuery (js "  ") init)
  = Some (setQuery (js "  ") init).
Proof.
  assert (Hblank : forallb is_whitespace (query (setQuery (js "  ") init)) = true
                   \/ loading (setQuery (js "  ") init) = true)
    by (left; reflexivity).
  destruct (submit_noop example_numbers (setQuery (js "  ") init) Hblank)
    as [Hsame Hturn].
  split; [exact Hsame|]. apply Hturn.
  apply (run_reachable example_numbers [Input (js "  ")] init);
    [apply reachable_init|vm_compute; reflexivity].
Defined.

Lemma current_handle_only_witness :
  (exists st, run example_numbers [Input (js "q"); Ask] init = Some st /\
              step example_numbers Ask st = Some st) /\
  (exists st', step example_numbers Ask (setQuery (js "q") init) = Some st' /\
               controllers st' = [false] /\ abortRef st' = Some 0%nat).
Proof.
  split.
  - eexists. split; [vm_compute; reflexivity|].
    refine (proj1 (current_handle_only example_numbers _ _) _); [|reflexivity].
    apply (run_reachable example_numbers [Input (js "q"); Ask] init);
      [apply reachable_init|vm_compute; reflexivity].
  - assert (Hreach : reachable example_numbers (setQuery (js "q") init))
      by (apply (run_reachable example_numbers [Input (js "q")] init);
          [apply reachable_init|vm_compute; reflexivity]).
    assert (Hq : trim (query (setQuery (js "q") init)) <> [])
      by (vm_compute; discriminate).
    destruct (proj1 (proj2 (current_handle_only example_numbers _ Hreach))
                eq_refl Hq)
      as (st' & Hstep & Hcs & _ & Href & _).
    exists st'. split; [exact Hstep|]. split; [exact Hcs|exact Href].
Defined.

Lemma clear_outcome_witness :
  step example_numbers Clear init = Some (handleClear init) /\
  match run example_numbers [Input (js "q"); Ask] init with
  | Some st =>
      exists st' m, step example_numbers Clear st = Some st' /\
                    lifecycle st' = Failed m /\ m = ABORT_MESSAGE
  | None => False
  end.
Proof.
  split.
  - refine (proj1 (proj2 (proj2 (clear_outcome example_numbers init _))) _);
      [apply reachable_init|reflexivity].
  - destruct (run example_numbers [Input (js "q"); Ask] init) as [st|] eqn:Hrun;
      [|vm_compute in Hrun; discriminate].
    assert (Hreach : reachable example_numbers st)
      by (eapply run_reachable; [apply reachable_init|exact Hrun]).
    vm_compute in Hrun. injection Hrun as <-.
    destruct (proj2 (proj2 (proj2 (clear_outcome example_numbers _ Hreach)))
                eq_refl)
      as (st' & m & Hstep & Hlife & _ & _ & _ & _ & _ & _ & Hmsg).
    exists st', m. split; [exact Hstep|]. split; [exact Hlife|].
    apply Hmsg. intros r Hin. apply list_elem_of_singleton in Hin.
    rewrite Hin. reflexivity.
Defined.

Lemma timeout_guard_witness :
  match run example_numbers [Input (js "q"); Ask; Elapse 90000] init with
  | Some st =>
      exists st' m, step example_numbers (TimeoutFires 1) st = Some st' /\
                    lifecycle st' = Failed m /\ m = ABORT_MESSAGE /\
                    timers st' = ∅ /\ pending st' = []
  | None => False
  end.
Proof.
  destruct (run example_numbers [Input (js "q"); Ask; Elapse 90000] init)
    as [st|] eqn:Hrun; [|vm_compute in Hrun; discriminate].
  assert (Hreach : reachable example_numbers st)
    by (eapply run_reachable; [apply reachable_init|exact Hrun]).
  vm_compute in Hrun. injection Hrun as <-.
  destruct (proj2 (proj2 (proj2 (timeout_guard example_numbers _ Hreach)))
              eq_refl)
    as (id & d & c & Ht & _ & _ & _ & _ & _ & _ & _ & _ & Hfire).
  apply (f_equal (fun m : gmap nat Timer => m !! 1%nat)) in Ht.
  symmetry in Ht. apply lookup_singleton_Some in Ht as [-> Ht].
  injection Ht as -> ->.
  destruct (Hfire eq_refl) as (st' & m & Hstep & _ & _ & Hlife & Htm & Hpd & Hmsg).
  exists st', m. split; [exact Hstep|]. split; [exact Hlife|].
  split; [|split; assumption].
  apply Hmsg. intros r Hin. apply list_elem_of_singleton in Hin.
  rewrite Hin. reflexivity.
Defined.

Lemma step_indicator_witness :
  (exists st1 lc,
     step example_numbers Ask (setQuery (js "q") init) = Some st1 /\
     loading st1 = true /\ card st1 = Some lc /\ active lc = 0%nat) /\
  match run example_numbers [Input (js "q"); Ask; Elapse 5000] init with
  | Some st => exists lc, card st = Some lc /\ active lc = 2%nat
  | None => False
  end.
Proof.
  split.
  - assert (Hreach : reachable example_numbers (setQuery (js "q") init))
      by (apply (run_reachable example_numbers [Input (js "q")] init);
          [apply reachable_init|vm_compute; reflexivity]).
    assert (Hq : trim (query (setQuery (js "q") init)) <> [])
      by (vm_compute; discriminate).
    destruct (proj1 (proj2 (proj2 (proj2 (proj2
                (step_indicator example_numbers _ Hreach))))) eq_refl Hq)
      as (st1 & lc & _ & _ & H1 & H2 & H3 & H4 & _).
    exists st1, lc. repeat split; assumption.
  - destruct (run example_numbers [Input (js "q"); Ask; Elapse 5000] init)
      as [st|] eqn:Hrun; [|vm_compute in Hrun; discriminate].
    assert (Hreach : reachable example_numbers st)
      by (eapply run_reachable; [apply reachable_init|exact Hrun]).
    vm_compute in Hrun. injection Hrun as <-.
    destruct (proj2 (proj2 (proj2 (proj2 (proj2
                (step_indicator example_numbers _ Hreach))))) eq_refl)
      as (lc & id & t & Hc & Ht & _ & Ha & _).
    exists lc. split; [exact Hc|].
    apply (f_equal (fun m : gmap nat Timer => m !! 1%nat)) in Ht.
    symmetry in Ht. apply lookup_singleton_Some in Ht as [-> ->].
    exact Ha.
Defined.

Lemma postQuery_body_errors_witness :
  (let r := {| status := 502; statusText := js "Bad Gateway";
               content_type := Some (js "text/html") |} in
   let b := {| json := None; text := Some (js "<h1>502</h1>") |} in
   postQuery example_numbers (FetchOk r b) =
   Throw (Error (js "HTTP 502 " ++ [en_dash]
                   ++ js " Backend returned a non-JSON response. <h1>502</h1>")))
  /\
  (let r := {| status := 200; statusText := js "OK";
               content_type := Some (js "application/json") |} in
   let b := {| json := None; text := None |} in
   postQuery example_numbers (FetchOk r b) = Throw (Error EMPTY_BODY)).
Proof.
  split; intros r b.
  - refine (proj1 (proj1 (postQuery_body_errors example_numbers r b) _ _));
      reflexivity.
  - refine (proj2 (proj2 (postQuery_body_errors example_numbers r b) _) _);
      [reflexivity|].
    intros v Hv.
    apply (proj1 (proj2 (postQuery_body_errors example_numbers r b) eq_refl) v)
      in Hv as (_ & Hjson & _).
    discriminate Hjson.
Defined.

(* ===================================================================== *)
(** ** Further worked examples *)
(* ===================================================================== *)

Lemma postQuery_abort_only_witness :
  exists m, postQuery example_numbers (FetchFail (js "Failed to fetch"))
            = Throw (Error m) /\
            startsWith m (js "Network error") = true /\
            includes m (js "Failed to fetch") = true.
Proof.
  exact (proj2 (proj2 (postQuery_abort_only example_numbers
                         (FetchFail (js "Failed to fetch")))
                      (js "Failed to fetch") eq_refl)).
Defined.


Lemma postQuery_versions_witness :
  postQuery_basic example_numbers AbortError
    (FetchOk {| status := 200; statusText := js "OK";
                content_type := Some (js "application/json") |}
             {| json := Some (JObj [(js "answer", JStr (js "ok"))]);
                text := None |})
  = Return (JObj [(js "answer", JStr (js "ok"))]).
Proof.
  apply (proj1 (postQuery_versions example_numbers _ _ _)). reflexivity.
Defined.

Lemma settlement_is_shown_witness :
  let resp := {| status := 500; statusText := js "Internal Server Error";
                 content_type := Some (js "application/json") |} in
  let b := {| json := Some (JObj [(js "detail", JArr [])]); text := None |} in
  match run example_numbers [Input (js "q"); Ask; FetchResolves 0 resp] init with
  | Some st =>
      exists st', step example_numbers (BodyArrives 0 b) st = Some st' /\
                  render st' = [ErrorView (js "An unexpected error occurred.")]
  | None => False
  end.
Proof.
  intros resp b.
  destruct (run example_numbers [Input (js "q"); Ask; FetchResolves 0 resp] init)
    as [st|] eqn:Hrun; [|vm_compute in Hrun; discriminate].
  assert (Hreach : reachable example_numbers st)
    by (eapply run_reachable; [apply reachable_init|exact Hrun]).
  vm_compute in Hrun. injection Hrun as <-.
  destruct (proj1 (settlement_is_shown example_numbers _ _ Hreach eq_refl)
              resp b eq_refl) as (st' & Hstep & _ & _ & Hshown).
  exists st'. split; [exact Hstep|]. exact (proj1 Hshown).
Defined.

Lemma can_always_submit_witness :
  exists st', run example_numbers [Input (js " again "); Ask] init = Some st' /\
              lifecycle st' = Pending /\
              exists r, pending st' = [r] /\ req_query r = js "again".
Proof.
  assert (Hq : trim (js " again ") <> []) by (vm_compute; discriminate).
  destruct (proj2 (can_always_submit example_numbers init (js " again ")
                     (reachable_init _) Hq) eq_refl)
    as (st' & Hrun & Hlife & _ & r & Hp & Hr).
  exists st'. split; [exact Hrun|]. split; [exact Hlife|].
  exists r. split; [exact Hp|exact Hr].
Defined.

Lemma interrupted_body_read_witness :
  let resp := {| status := 200; statusText := js "OK";
                 content_type := Some (js "application/json") |} in
  match run example_numbers [Input (js "q"); Ask; FetchResolves 0 resp] init with
  | Some st =>
      exists st', step example_numbers Clear st = Some st' /\
                  lifecycle st' = Failed EMPTY_BODY
  | None => False
  end.
Proof.
  intros resp.
  destruct (run example_numbers [Input (js "q"); Ask; FetchResolves 0 resp] init)
    as [st|] eqn:Hrun; [|vm_compute in Hrun; discriminate].
  assert (Hreach : reachable example_numbers st)
    by (eapply run_reachable; [apply reachable_init|exact Hrun]).
  vm_compute in Hrun. injection Hrun as <-.
  destruct (proj1 (proj2 (proj2
              (interrupted_body_read example_numbers _ _ resp Hreach
                 eq_refl eq_refl))))
    as (st' & Hstep & Hlife).
  exists st'. split; [exact Hstep|exact Hlife].
Defined.

Lemma example_then_ask_witness :
  exists st1 st2,
    step example_numbers
         (Example (js "What are the service agreement terms with Asiatrade Logistics?"))
         init = Some st1 /\
    step example_numbers Ask st1 = Some st2 /\ lifecycle st2 = Pending.
Proof.
  assert (Hin : {| short := js "Asiatrade terms";
                   full := js "What are the service agreement terms with Asiatrade Logistics?" |}
                ∈ EXAMPLE_QUERIES)
    by (apply list_elem_of_In; vm_compute; tauto).
  destruct (example_then_ask example_numbers init _ (reachable_init _)
              eq_refl Hin)
    as (st1 & st2 & H1 & _ & _ & _ & _ & H2 & H3 & _).
  exists st1, st2. split; [exact H1|]. split; [exact H2|exact H3].
Defined.

Lemma page_while_pending_witness :
  match ui_run example_numbers [Input (js " q "); Ask] init with
  | Some st =>
      exists r, pending st = [r] /\ req_query r = js "q" /\
                clear_rendered st = true
  | None => False
  end.
Proof.
  destruct (ui_run example_numbers [Input (js " q "); Ask] init)
    as [st|] eqn:Hrun; [|vm_compute in Hrun; discriminate].
  assert (Hreach : ui_reachable example_numbers st)
    by (eapply ui_run_reachable; [apply ui_reachable_init|exact Hrun]).
  vm_compute in Hrun. injection Hrun as <-.
  destruct (proj1 (page_while_pending example_numbers _ Hreach) eq_refl)
    as (r & Hp & Hq & _ & _ & _ & _ & Hc).
  exists r. split; [exact Hp|]. split; [exact Hq|exact Hc].
Defined.

Lemma superseded_handles_aborted_witness :
  match run example_numbers
            [Input (js "a"); Ask; Clear; Input (js "b"); Ask] init with
  | Some st => is_aborted st 0 = true /\ abortRef st = Some 1%nat
  | None => False
  end.
Proof.
  destruct (run example_numbers
                [Input (js "a"); Ask; Clear; Input (js "b"); Ask] init)
    as [st|] eqn:Hrun; [|vm_compute in Hrun; discriminate].
  assert (Hreach : reachable example_numbers st)
    by (eapply run_reachable; [apply reachable_init|exact Hrun]).
  vm_compute in Hrun. injection Hrun as <-.
  destruct (superseded_handles_aborted example_numbers _ Hreach)
    as (_ & _ & Hothers & _).
  split; [|reflexivity]. apply Hothers; [simpl; lia|discriminate].
Defined.

Lemma loading_badges_witness :
  map badge_class (loading_steps 2) = [BadgeDone; BadgeDone; BadgeActive].
Proof.
  refine (proj1 (proj1 (loading_badges example_numbers init 2) _)).
  simpl. lia.
Defined.

Lemma status_pill_one_mark_witness :
  exists c mark,
    status_pill (JStr (js "Failed")) = Normal (js "status-pill " ++ c, [mark]).
Proof.
  destruct (proj1 (status_pill_one_mark (JStr (js "Failed")))
              (or_intror (ex_intro _ (js "Failed") eq_refl)))
    as (c & mark & Hp & _).
  exists c, mark. exact Hp.
Defined.

Lemma copied_reverts_witness :
  match copy_run [CopyWritten; CopyElapse 1500; CopyWritten; CopyElapse 500]
                 (AnswerCard_init 0) with
  | Some c =>
      exists c', copy_step (CopyTimerFires 0) c = Some c' /\
                 copied c' = false /\ copy_timers c' = [3500%Z]
  | None => False
  end.
Proof.
  destruct (copy_run [CopyWritten; CopyElapse 1500; CopyWritten; CopyElapse 500]
                     (AnswerCard_init 0)) as [c|] eqn:Hrun;
    [|vm_compute in Hrun; discriminate].
  assert (Hreach : copy_reachable 0 c)
    by (eapply copy_run_reachable; [apply copy_reachable_init|exact Hrun]).
  vm_compute in Hrun. injection Hrun as <-.
  destruct (copied_reverts 0 _ Hreach eq_refl)
    as (d & rest & Ht & _ & _ & Hfire).
  injection Ht as <- <-.
  destruct (Hfire eq_refl) as (c' & Hstep & Hc & _ & Hrest).
  exists c'. split; [exact Hstep|]. split; [exact Hc|exact Hrest].
Defined.

Lemma lifecycle_transitions_witness :
  lifecycle <$> step example_numbers (Example (js "x")) init = Some Idle.
Proof.
  destruct (step example_numbers (Example (js "x")) init) as [st'|] eqn:Hstep;
    [|vm_compute in Hstep; discriminate].
  simpl. f_equal.
  exact (proj2 (lifecycle_transitions example_numbers (Example (js "x"))
                  init st' (reachable_init _) Hstep) eq_refl).
Defined.
